(** * Shallow embedding of [download_samples.py] (MetaDefender sample downloader)

    The shared counters guarded by [download_count_lock], the admission check of
    [fetch_and_process_hashes], the worker [process_hash_entry] with
    [get_download_link] and [download_file], the page fetcher
    [fetch_hashes_page], the paginator and the [__main__] block.

    Network and file-system calls are environment inputs: each retry attempt
    of a request is given by a function [attempt index -> outcome]. *)

From Stdlib Require Import ZArith QArith List String Ascii DecimalString Bool Lia.
Import ListNotations.
Open Scope Z_scope.
Set Warnings "-register-all".

(** ** Configuration constants *)

Definition MAX_RETRIES : nat := 3.

(** ** JSON values, as returned by [response.json()] *)

Inductive json : Type :=
| JNull
| JBool (b : bool)
| JNum (z : Z)
| JStr (s : string)
| JArr (l : list json)
| JObj (kvs : list (string * json)).

(** Python truthiness of a decoded JSON value ([None] is [JNull]). *)
Definition truthy (j : json) : bool :=
  match j with
  | JNull => false
  | JBool b => b
  | JNum z => negb (z =? 0)
  | JStr s => negb (String.eqb s "")
  | JArr l => negb (match l with [] => true | _ => false end)
  | JObj kvs => negb (match kvs with [] => true | _ => false end)
  end.

(** [dict.get(k)] on a decoded object: the JSON decoder keeps the last
    binding of a duplicated key. *)
Fixpoint obj_get (kvs : list (string * json)) (k : string) : option json :=
  match kvs with
  | [] => None
  | (k', v) :: rest =>
      match obj_get rest k with
      | Some w => Some w
      | None => if String.eqb k k' then Some v else None
      end
  end.

(** ** Shared state guarded by [download_count_lock] *)

Record St : Type := mkSt {
  downloaded_count : Z;
  pending_downloads_count : Z;
  failed_count : Z;
  skipped_existing_count : Z;
  should_stop : bool
}.

Definition st_init : St := mkSt 0 0 0 0 false.

(** The atomic updates a worker task performs on the shared state. *)
Inductive wstep : Type :=
| WIncDownloaded        (* [downloaded_count += 1] in [download_file] *)
| WIncFailed            (* [failed_count += 1] after the final attempt *)
| WIncSkippedExisting   (* [update_statistics(error_type="Skipped Existing")] *)
| WDecPending.          (* guarded decrement in the [finally] block *)

Definition apply_wstep (w : wstep) (s : St) : St :=
  match w with
  | WIncDownloaded =>
      mkSt (downloaded_count s + 1) (pending_downloads_count s) (failed_count s)
           (skipped_existing_count s) (should_stop s)
  | WIncFailed =>
      mkSt (downloaded_count s) (pending_downloads_count s) (failed_count s + 1)
           (skipped_existing_count s) (should_stop s)
  | WIncSkippedExisting =>
      mkSt (downloaded_count s) (pending_downloads_count s) (failed_count s)
           (skipped_existing_count s + 1) (should_stop s)
  | WDecPending =>
      if 0 <? pending_downloads_count s then
        mkSt (downloaded_count s) (pending_downloads_count s - 1) (failed_count s)
             (skipped_existing_count s) (should_stop s)
      else s
  end.

Definition apply_wsteps (ws : list wstep) (s : St) : St :=
  fold_left (fun acc w => apply_wstep w acc) ws s.

(** ** Admission check (lines 383-401), executed under the lock.
    Returns [submit_this_task] and the new shared state. *)
Definition try_admit (MAX_DOWNLOAD : option Z) (s : St) : bool * St :=
  if should_stop s then (false, s)
  else
    match MAX_DOWNLOAD with
    | Some m =>
        if m <=? downloaded_count s + pending_downloads_count s then
          (false, mkSt (downloaded_count s) (pending_downloads_count s) (failed_count s)
                       (skipped_existing_count s) true)
        else
          (true, mkSt (downloaded_count s) (pending_downloads_count s + 1) (failed_count s)
                      (skipped_existing_count s) (should_stop s))
    | None =>
        (true, mkSt (downloaded_count s) (pending_downloads_count s + 1) (failed_count s)
                    (skipped_existing_count s) (should_stop s))
    end.

(** ** [get_download_link] (lines 193-219) *)

(** One attempt of [requests.get(url, ...)] for the link endpoint. *)
Inductive link_attempt : Type :=
| LkReqErr                                   (* requests exception: connection error, timeout *)
| LkResp (status : Z) (body : option json).  (* a response; [None] = body is not JSON *)

(** What [get_download_link] does: return a value (Python [None] is [JNull])
    or let an exception escape (the [AttributeError] of [data.get] on a
    decoded body that is not an object). *)
Inductive link_ret : Type :=
| LRet (v : json)
| LRaise.

Definition http_error_status (status : Z) : bool := (400 <=? status) && (status <? 600).

(** [fuel] counts the remaining iterations of [range(MAX_RETRIES + 1)];
    the result carries the number of requests made. A body that is not JSON
    makes [response_obj.json()] raise [requests.exceptions.JSONDecodeError]
    (requests 2.27 and later), a subclass of both [RequestException] and
    [json.JSONDecodeError]: the first handler, [except RequestException],
    catches it, so the request is retried like a connection error and the
    [except json.JSONDecodeError] branch is never reached. *)
Fixpoint link_loop (fuel attempt : nat) (env : nat -> link_attempt) : link_ret * nat :=
  match fuel with
  | O => (LRet JNull, attempt)
  | S fuel' =>
      let on_request_exception :=
        if (attempt <? MAX_RETRIES)%nat then link_loop fuel' (S attempt) env
        else (LRet JNull, S attempt) in
      match env attempt with
      | LkReqErr => on_request_exception
      | LkResp status body =>
          if status =? 404 then (LRet JNull, S attempt)
          else if http_error_status status then on_request_exception  (* raise_for_status *)
          else
            match body with
            | None => on_request_exception                               (* JSONDecodeError *)
            | Some (JObj kvs) =>
                (LRet (match obj_get kvs "file_path" with Some v => v | None => JNull end), S attempt)
            | Some _ => (LRaise, S attempt)                             (* data.get on a non-dict *)
            end
      end
  end.

Definition get_download_link (env : nat -> link_attempt) : link_ret * nat :=
  link_loop (S MAX_RETRIES) 0 env.

(** ** [download_file] (lines 221-272) *)

(** One attempt of the streamed byte fetch. *)
Inductive dl_attempt : Type :=
| DlOk (chunks : list Z)
    (* request and streaming succeed; the sizes of the chunks written *)
| DlReqErr (written : option (list Z)) (rm_ok : bool)
    (* a requests exception; [written = Some chunks] when it is raised mid-stream
       after [open(filepath, 'wb')] and those chunks were written; [rm_ok] says
       whether [os.remove] in the cleanup succeeds (its [OSError] is only logged) *)
| DlWriteErr (written : option (list Z)).
    (* an [OSError] (disk full, permission denied, ...), not a requests
       exception, so it escapes [download_file]: from [file.write] after
       [open(filepath, 'wb')] when [written = Some chunks] and those chunks were
       written, from [open] itself, which creates no file, when [written = None] *)

Inductive dl_ret : Type := DlTrue | DlFalse | DlRaise.

Record dl_result : Type := mkDl {
  dl_ret_of : dl_ret;
  dl_steps : list wstep;            (* updates of the shared counters, in order *)
  dl_file : option Z;               (* the file at [filepath]: absent, or its size *)
  dl_attempts : nat;                (* byte-fetch requests made *)
  dl_after_fail : list (option Z)   (* the file after each failed attempt's cleanup *)
}.

Definition sum_chunks (chunks : list Z) : Z := fold_left Z.add chunks 0.

Fixpoint dl_loop (fuel attempt : nat) (env : nat -> dl_attempt) (file : option Z)
    (fails : list (option Z)) : dl_result :=
  match fuel with
  | O => mkDl DlFalse [] file attempt fails
  | S fuel' =>
      match env attempt with
      | DlOk chunks => mkDl DlTrue [WIncDownloaded] (Some (sum_chunks chunks)) (S attempt) fails
      | DlWriteErr written =>
          let file1 := match written with Some chunks => Some (sum_chunks chunks) | None => file end in
          mkDl DlRaise [] file1 (S attempt) fails
      | DlReqErr written rm_ok =>
          let file1 := match written with Some chunks => Some (sum_chunks chunks) | None => file end in
          (* if os.path.exists(filepath): os.remove(filepath) *)
          let file2 := match file1 with
                       | Some _ => if rm_ok then None else file1
                       | None => None
                       end in
          if (attempt <? MAX_RETRIES)%nat then dl_loop fuel' (S attempt) env file2 (fails ++ [file2])
          else mkDl DlFalse [WIncFailed] file2 (S attempt) (fails ++ [file2])
      end
  end.

(** [file0] is the state of [DOWNLOAD_DIR/sha256] when [download_file] starts. *)
Definition download_file (file0 : option Z) (env : nat -> dl_attempt) : dl_result :=
  match file0 with
  | Some _ => mkDl DlTrue [WIncSkippedExisting] file0 O []
  | None => dl_loop (S MAX_RETRIES) O env None []
  end.

(** ** [process_hash_entry] (lines 274-321) *)

Record worker_env : Type := mkWEnv {
  we_link : nat -> link_attempt;   (* the link requests *)
  we_file : option Z;              (* [DOWNLOAD_DIR/sha256] before the task *)
  we_dl : nat -> dl_attempt        (* the byte-fetch requests *)
}.

Record worker_result : Type := mkW {
  w_steps : list wstep;       (* updates of the shared counters, in order *)
  w_link_attempts : nat;
  w_fetch_attempts : nat;
  w_file : option Z;
  w_saved : bool;             (* [save_processed_hash] called *)
  w_after_fail : list (option Z)
}.

(** [if not sha256_hash]: the key is absent, [None], or the empty string. *)
Definition sha_truthy (sha : option string) : option string :=
  match sha with
  | Some h => if String.eqb h "" then None else Some h
  | None => None
  end.

Definition process_hash_entry (sha : option string) (env : worker_env) : worker_result :=
  match sha_truthy sha with
  | None => mkW [] 0 0 (we_file env) false []
  | Some _ =>
      let (lk, nlink) := get_download_link (we_link env) in
      match lk with
      | LRaise =>      (* caught by [except Exception] *)
          mkW [WDecPending] nlink 0 (we_file env) false []
      | LRet v =>
          if truthy v then
            let d := download_file (we_file env) (we_dl env) in
            let saved := match dl_ret_of d with DlTrue => true | _ => false end in
            mkW (dl_steps d ++ [WDecPending]) nlink (dl_attempts d) (dl_file d) saved
                (dl_after_fail d)
          else mkW [WDecPending] nlink 0 (we_file env) false []
      end
  end.

(** ** [fetch_hashes_page] (lines 163-191) *)

Inductive feed_attempt : Type :=
| FReqErr                                   (* requests exception: connection error, timeout *)
| FResp (status : Z) (body : option json).  (* a response; [None] = body is not JSON *)

(** The return value: the page's ['data'] list, [None], or an exception that
    escapes the function (none of its handlers catches a [TypeError]). *)
Inductive feed_ret : Type :=
| FData (records : list json)
| FNone
| FRaise.

(** The keys added to [error_counts]. *)
Inductive feed_error : Type := FeJsonDecode | FeRequestFailed.

Record feed_result : Type := mkFeed {
  fr_ret : feed_ret;
  fr_requests : nat;
  fr_errors : list feed_error
}.

(** Python's ['data' in hashes_data]: key membership for a dict, element
    membership for a list, substring for a string, [TypeError] ([None]) for
    [None], numbers and booleans. *)
Definition py_contains_data (j : json) : option bool :=
  match j with
  | JObj kvs => Some (match obj_get kvs "data" with Some _ => true | None => false end)
  | JArr l => Some (existsb (fun x => match x with JStr s => String.eqb s "data" | _ => false end) l)
  | JStr s => Some (match String.index 0 "data" s with Some _ => true | None => false end)
  | _ => None
  end.

(** The inner [try] of one attempt, after [raise_for_status] passed. *)
Definition decode_page (body : option json) : feed_ret * list feed_error :=
  match body with
  | None => (FNone, [FeJsonDecode])            (* except json.JSONDecodeError: return None *)
  | Some j =>
      match py_contains_data j with
      | None => (FRaise, [])
      | Some false => (FData [], [])             (* return {'data': []} *)
      | Some true =>
          match j with
          | JObj kvs =>
              match obj_get kvs "data" with
              | Some (JArr recs) => (FData recs, [])
              | _ => (FData [], [])
              end
          | _ => (FRaise, [])                    (* hashes_data['data'] on a list or str *)
          end
      end
  end.

Fixpoint feed_loop (fuel attempt : nat) (env : nat -> feed_attempt) : feed_result :=
  match fuel with
  | O => mkFeed FNone attempt []
  | S fuel' =>
      let on_request_exception :=
        if (attempt <? MAX_RETRIES)%nat then feed_loop fuel' (S attempt) env
        else mkFeed FNone (S attempt) [FeRequestFailed] in
      match env attempt with
      | FReqErr => on_request_exception
      | FResp status body =>
          if http_error_status status then on_request_exception
          else let (r, errs) := decode_page body in mkFeed r (S attempt) errs
      end
  end.

Definition fetch_hashes_page (env : nat -> feed_attempt) : feed_result :=
  feed_loop (S MAX_RETRIES) 0 env.

(** ** The paginator [fetch_and_process_hashes] (lines 324-434) *)

(** A feed record as the paginator reads it: [entry.get('sha256')], absent or
    [null] being [None] (the HashRecord of the data model). *)
Record hash_entry : Type := mkEntry { entry_sha256 : option string }.

(** What the paginator gets from [fetch_hashes_page(page_number)]. *)
Inductive page_fetch : Type :=
| PData (records : list hash_entry)
| PNone
| PRaise.

(** Reading a decoded record as a HashRecord; [None] for shapes outside that
    type (a record that is not an object, or a non-string [sha256]). *)
Definition entry_of_json (j : json) : option hash_entry :=
  match j with
  | JObj kvs =>
      match obj_get kvs "sha256" with
      | None | Some JNull => Some (mkEntry None)
      | Some (JStr s) => Some (mkEntry (Some s))
      | Some _ => None
      end
  | _ => None
  end.

Fixpoint entries_of_json (l : list json) : option (list hash_entry) :=
  match l with
  | [] => Some []
  | j :: r =>
      match entry_of_json j, entries_of_json r with
      | Some e, Some es => Some (e :: es)
      | _, _ => None
      end
  end.

Definition page_of_feed (r : feed_ret) : option page_fetch :=
  match r with
  | FData recs => option_map PData (entries_of_json recs)
  | FNone => Some PNone
  | FRaise => Some PRaise
  end.

Definition mem (h : string) (l : list string) : bool := existsb (String.eqb h) l.

(** The filtering loop of lines 345-366; [seen] is [temp_page_seen_hashes]. *)
Fixpoint filter_page (processed seen : list string) (l : list hash_entry) : list hash_entry :=
  match l with
  | [] => []
  | e :: rest =>
      match sha_truthy (entry_sha256 e) with
      | None => filter_page processed seen rest
      | Some h =>
          if mem h processed then filter_page processed seen rest
          else if mem h seen then filter_page processed seen rest
          else e :: filter_page processed (h :: seen) rest
      end
  end.

(** The coordinating thread's position in [fetch_and_process_hashes]. *)
Inductive stop_reason : Type :=
| RStopFlag      (* [should_stop] seen at the top of the loop or after a page *)
| REmptyPage     (* a page with an empty ['data'] list *)
| RFeedError     (* [fetch_hashes_page] returned [None] *)
| RCrash.        (* an exception escaped [fetch_hashes_page] *)

Inductive coord : Type :=
| CTop (page : nat)                            (* top of [while True] *)
| CSubmit (page : nat) (todo : list hash_entry) (* submission loop inside the executor *)
| CJoin (page : nat)                           (* leaving the [with ThreadPoolExecutor] block *)
| CDone (r : stop_reason).

(** The whole process: the coordinator, the shared counters, [processed_hashes],
    the remaining counter updates of every submitted task, the hashes submitted
    so far, and the page numbers requested. *)
Record Cfg : Type := mkCfg {
  c_pc : coord;
  c_st : St;
  c_processed : list string;
  c_tasks : list (list wstep);
  c_submitted : list string;
  c_fetched : list nat
}.

Definition set_pc (p : coord) (c : Cfg) : Cfg :=
  mkCfg p (c_st c) (c_processed c) (c_tasks c) (c_submitted c) (c_fetched c).

Definition task_done (t : list wstep) : bool :=
  match t with [] => true | _ => false end.

Fixpoint upd_nth {A : Type} (i : nat) (x : A) (l : list A) : list A :=
  match l, i with
  | [], _ => []
  | _ :: r, O => x :: r
  | y :: r, S i' => y :: upd_nth i' x r
  end.

Inductive sched : Type :=
| SCoord           (* the coordinating thread takes its next step *)
| SWork (i : nat). (* the [i]-th submitted task performs its next counter update *)

(** [current_sha256 = entry.get('sha256')] of a batch entry (always a
    non-empty string there). *)
Definition entry_hash (e : hash_entry) : string :=
  match entry_sha256 e with Some h => h | None => EmptyString end.

Section Paginator.

Variable MAX_DOWNLOAD : option Z.
Variable feed : nat -> page_fetch.
Variable wenv : string -> worker_env.

Definition coord_step (c : Cfg) : Cfg :=
  match c_pc c with
  | CTop page =>
      if should_stop (c_st c) then set_pc (CDone RStopFlag) c
      else
        let c1 := mkCfg (c_pc c) (c_st c) (c_processed c) (c_tasks c) (c_submitted c)
                        (c_fetched c ++ [page]) in
        match feed page with
        | PData [] => set_pc (CDone REmptyPage) c1
        | PData recs =>
            match filter_page (c_processed c) [] recs with
            | [] => set_pc (CTop (S page)) c1
            | batch => set_pc (CSubmit page batch) c1
            end
        | PNone => set_pc (CDone RFeedError) c1
        | PRaise => set_pc (CDone RCrash) c1
        end
  | CSubmit page [] => set_pc (CJoin page) c
  | CSubmit page (e :: rest) =>
      let h := entry_hash e in
      let (submit_this_task, s') := try_admit MAX_DOWNLOAD (c_st c) in
      if should_stop s' then
        mkCfg (CJoin page) s' (c_processed c) (c_tasks c) (c_submitted c) (c_fetched c)
      else if submit_this_task then
        mkCfg (CSubmit page rest) s' (h :: c_processed c)
              (c_tasks c ++ [w_steps (process_hash_entry (entry_sha256 e) (wenv h))])
              (c_submitted c ++ [h]) (c_fetched c)
      else mkCfg (CSubmit page rest) s' (c_processed c) (c_tasks c) (c_submitted c) (c_fetched c)
  | CJoin page =>
      if forallb task_done (c_tasks c) then
        if should_stop (c_st c) then set_pc (CDone RStopFlag) c else set_pc (CTop (S page)) c
      else c
  | CDone _ => c
  end.

Definition work_step (i : nat) (c : Cfg) : Cfg :=
  match nth_error (c_tasks c) i with
  | Some (w :: rest) =>
      mkCfg (c_pc c) (apply_wstep w (c_st c)) (c_processed c) (upd_nth i rest (c_tasks c))
            (c_submitted c) (c_fetched c)
  | _ => c
  end.

Definition sched_step (c : Cfg) (s : sched) : Cfg :=
  match s with
  | SCoord => coord_step c
  | SWork i => work_step i c
  end.

(** The state reached after an interleaving of the threads' steps. *)
Definition run (c : Cfg) (ss : list sched) : Cfg := fold_left sched_step ss c.

End Paginator.

(** ** [load_processed_hashes] (lines 130-140) *)

(** [str.isspace()] on a code point below 256: ["\t\n\v\f\r"],
    ["\x1c"]-["\x1f"], the space, ["\x85"] and ["\xa0"]. *)
Definition is_py_space (a : Ascii.ascii) : bool :=
  let n := Ascii.nat_of_ascii a in
  ((9 <=? n) && (n <=? 13))%nat || ((28 <=? n) && (n <=? 32))%nat ||
  (n =? 133)%nat || (n =? 160)%nat.

Fixpoint lstrip (s : string) : string :=
  match s with
  | EmptyString => EmptyString
  | String a r => if is_py_space a then lstrip r else s
  end.

Fixpoint rev_str (s : string) (acc : string) : string :=
  match s with
  | EmptyString => acc
  | String a r => rev_str r (String a acc)
  end.

(** [str.strip()] on text whose code points are below 256, one character each. *)
Definition strip (s : string) : string :=
  rev_str (lstrip (rev_str (lstrip s) EmptyString)) EmptyString.

(** [log = None]: the file is missing or reading it raised [IOError]. *)
Definition load_processed_hashes (log : option (list string)) : list string :=
  match log with
  | None => []
  | Some lines => filter (fun h => negb (String.eqb h EmptyString)) (map strip lines)
  end.

(** ** The processed log on disk ([save_processed_hash], lines 142-147) *)







(** ** [update_statistics] (lines 149-161) *)

(** A Python dict as an association list in insertion order (the report lists
    [download_rates.items()] in that order); [dict_set] is [d[k] = v]. *)
Section Dict.

Context {K V : Type} (eqb : K -> K -> bool).

Fixpoint dict_get (d : list (K * V)) (k : K) : option V :=
  match d with
  | [] => None
  | (k', v) :: r => if eqb k' k then Some v else dict_get r k
  end.

Fixpoint dict_set (d : list (K * V)) (k : K) (v : V) : list (K * V) :=
  match d with
  | [] => [(k, v)]
  | (k', v') :: r => if eqb k' k then (k', v) :: r else (k', v') :: dict_set r k v
  end.

(** [d.get(k, dflt)] *)
Definition dict_get_or (d : list (K * V)) (k : K) (dflt : V) : V :=
  match dict_get d k with Some v => v | None => dflt end.

End Dict.

Record Stats : Type := mkStats {
  http_status_counts : list (Z * Z);
  error_counts : list (string * Z);
  download_sizes : list (string * Z);
  download_rates : list (string * Q)
}.

Definition stats_init : Stats := mkStats [] [] [] [].

(** The keyword arguments of one call, [None] for an argument left at its
    default. A rate [file_size / download_time] is a float in Python and an
    exact rational here. *)
Record stat_call : Type := mkCall {
  status_code : option Z;
  error_type : option string;
  filename : option string;
  file_size : option Z;
  download_time : option Q
}.

(** [if status_code: http_status_counts[status_code] = ... + 1] *)
Definition update_http (c : stat_call) (d : list (Z * Z)) : list (Z * Z) :=
  match status_code c with
  | Some code => if code =? 0 then d else dict_set Z.eqb d code (dict_get_or Z.eqb d code 0 + 1)
  | None => d
  end.

(** [if error_type: error_counts[error_type] = ... + 1] *)
Definition update_errors (c : stat_call) (d : list (string * Z)) : list (string * Z) :=
  match error_type c with
  | Some e => if String.eqb e EmptyString then d
              else dict_set String.eqb d e (dict_get_or String.eqb d e 0 + 1)
  | None => d
  end.

(** [skipped_existing_count] is the counter of [St]. *)
Definition update_statistics (c : stat_call) (x : Stats) (s : St) : Stats * St :=
  let http := update_http c (http_status_counts x) in
  let errs := update_errors c (error_counts x) in
  let fname := match filename c with Some f => f | None => EmptyString end in
  let size := match file_size c with Some z => z | None => 0 end in
  let sizes := dict_set String.eqb (download_sizes x) fname size in
  (* filename and file_size is not None *)
  if negb (String.eqb fname EmptyString) && match file_size c with Some _ => true | None => false end then
    match download_time c with
    | Some t =>
        if Qle_bool t 0 then (mkStats http errs sizes (download_rates x), s)
        else (mkStats http errs sizes (dict_set String.eqb (download_rates x) fname (inject_Z size / t)%Q), s)
    | None => (mkStats http errs sizes (download_rates x), s)
    end
  else if match error_type c with Some e => String.eqb e "Skipped Existing" | None => false end then
    (mkStats http errs (download_sizes x) (download_rates x),
     mkSt (downloaded_count s) (pending_downloads_count s) (failed_count s)
          (skipped_existing_count s + 1) (should_stop s))
  else (mkStats http errs (download_sizes x) (download_rates x), s).

Definition apply_stats (calls : list stat_call) (x : Stats) (s : St) : Stats * St :=
  fold_left (fun g c => update_statistics c (fst g) (snd g)) calls (x, s).

Definition call_status (code : Z) : stat_call := mkCall (Some code) None None None None.

Definition call_error (e : string) : stat_call := mkCall None (Some e) None None None.

(** [f"{n}"] for a page number. *)
Definition py_str_nat (n : nat) : string := NilZero.string_of_uint (Nat.to_uint n).

Definition feed_failed_key (page_number : nat) : string :=
  "API Request Failed (Hash Feed - Page " ++ py_str_nat page_number ++ ")".

Definition feed_json_key (page_number : nat) : string :=
  "JSON Decode Error (Hash Feed - Page " ++ py_str_nat page_number ++ ")".

(** The [update_statistics] calls of [fetch_hashes_page(page_number)];
    [response] is the variable [response]: the status of the last response
    received, kept when a later [requests.get] raises. *)
Fixpoint feed_stat_calls (page_number : nat) (fuel attempt : nat) (response : option Z)
    (env : nat -> feed_attempt) : list stat_call :=
  match fuel with
  | O => []
  | S fuel' =>
      let on_request_exception (resp : option Z) :=
        (* if response is not None: update_statistics(status_code=response.status_code) *)
        match resp with Some st => [call_status st] | None => [] end ++
        (if (attempt <? MAX_RETRIES)%nat then feed_stat_calls page_number fuel' (S attempt) resp env
         else [call_error (feed_failed_key page_number)]) in
      match env attempt with
      | FReqErr => on_request_exception response
      | FResp status body =>
          call_status status ::
          (if http_error_status status then on_request_exception (Some status)
           else match body with
                | None => [call_error (feed_json_key page_number)]
                | Some _ => []
                end)
      end
  end.

Definition fetch_hashes_page_stats (page_number : nat) (env : nat -> feed_attempt) : list stat_call :=
  feed_stat_calls page_number (S MAX_RETRIES) 0 None env.

(** ** The error summary of the report (lines 529-536) *)

Definition nl : string := String "010"%char EmptyString.






(** ** The [__main__] block (lines 438-552) *)

Inductive main_ret : Type :=
| MExit1               (* [exit(1)] on a missing API key: no report *)
| MCrash               (* an exception ended the process: no report *)
| MRunning (c : Cfg)   (* the run has not finished after the given interleaving *)
| MReport (c : Cfg).   (* the report is produced from this final state *)

Definition initial_cfg (MAX_DOWNLOAD : option Z) (log : option (list string)) : Cfg :=
  let st0 := match MAX_DOWNLOAD with
             | Some 0 => mkSt 0 0 0 0 true
             | _ => st_init
             end in
  mkCfg (CTop 1) st0 (load_processed_hashes log) [] [] [].

(** The processed log as [load_processed_hashes] finds it. *)
Inductive log_file : Type :=
| LogMissing                     (* [os.path.exists(PROCESSED_LOG_FILE)] is false *)
| LogIOError                     (* [open] or a read raises [IOError]: caught and logged *)
| LogUndecodable                 (* its bytes are not text in the default encoding (UTF-8):
                                    reading raises [UnicodeDecodeError], which is not an
                                    [IOError] and escapes [load_processed_hashes] *)
| LogLines (lines : list string). (* the decoded lines of [for line in f] *)

(** [load_processed_hashes()]'s input: [None] when no line is read (missing
    file or [IOError]), or an exception escapes ([None] outside). *)
Definition read_log (f : log_file) : option (option (list string)) :=
  match f with
  | LogMissing | LogIOError => Some None
  | LogUndecodable => None
  | LogLines lines => Some (Some lines)
  end.

(** [API_KEY] is the module constant (shipped empty); [makedirs_ok] says whether
    [os.makedirs(DOWNLOAD_DIR, exist_ok=True)] returns normally; [log] is the
    processed log; [ss] interleaves the threads of the run. *)
Definition main (API_KEY : string) (makedirs_ok : bool) (MAX_DOWNLOAD : option Z)
    (log : log_file) (feed : nat -> page_fetch) (wenv : string -> worker_env)
    (ss : list sched) : main_ret :=
  if String.eqb API_KEY EmptyString
     || String.eqb API_KEY "PUT_YOUR_METADEFENDER_API_KEY_HERE" then MExit1
  else if negb makedirs_ok then MCrash
  else
    match read_log log with
    | None => MCrash   (* the [UnicodeDecodeError] of [load_processed_hashes()] *)
    | Some lines =>
      let c0 := initial_cfg MAX_DOWNLOAD lines in
      if should_stop (c_st c0) then MReport c0
      else
        let c := run MAX_DOWNLOAD feed wenv c0 ss in
        match c_pc c with
        | CDone RCrash => MCrash
        | CDone _ => MReport c
        | _ => MRunning c
        end
    end.

(** ** Concrete environments used to exercise the model *)

(** A link request answered with a download URL. *)
Definition ex_link_ok : nat -> link_attempt :=
  fun _ => LkResp 200 (Some (JObj [("file_path"%string, JStr "https://dl.example/h")])).

(** A worker whose link resolves, whose file is absent and whose first fetch succeeds. *)
Definition ex_wenv_ok (h : string) : worker_env := mkWEnv ex_link_ok None (fun _ => DlOk [8192; 100]).

(** A worker whose destination file already exists. *)
Definition ex_wenv_existing : worker_env := mkWEnv ex_link_ok (Some 4096) (fun _ => DlOk [8192]).

(** A worker whose link request is answered with HTTP 404. *)
Definition ex_wenv_404 : worker_env := mkWEnv (fun _ => LkResp 404 None) None (fun _ => DlOk [8192]).

(** A worker whose first link response has a body that is not JSON and whose
    second one is HTTP 404. *)
Definition ex_wenv_nonjson_404 : worker_env :=
  mkWEnv (fun i => match i with 0%nat => LkResp 200 None | _ => LkResp 404 None end)
         None (fun _ => DlOk [8192]).

(** A worker whose fetch fails twice mid-stream, then succeeds. *)
Definition ex_wenv_retry : worker_env :=
  mkWEnv ex_link_ok None
    (fun i => match i with 0%nat | 1%nat => DlReqErr (Some [8192]) true | _ => DlOk [8192; 8192; 10] end).

(** A worker whose first fetch stops on a local write error after one chunk. *)
Definition ex_wenv_write_err : worker_env :=
  mkWEnv ex_link_ok None (fun _ => DlWriteErr (Some [8192])).

(** A feed whose first page holds [recs] and whose second page is empty. *)
Definition ex_entry (h : string) : hash_entry := mkEntry (Some h).

Definition ex_feed (recs : list hash_entry) : nat -> page_fetch :=
  fun p => match p with 1%nat => PData recs | _ => PData [] end.

(** ** Predicates used by the properties *)

(** A link attempt that is retried: a requests exception, an HTTP error status
    other than 404 raised by [raise_for_status], or a body that is not JSON. *)
Definition link_transient (a : link_attempt) : Prop :=
  a = LkReqErr \/ exists status body, a = LkResp status body /\ status <> 404 /\
                                      (http_error_status status = true \/ body = None).

(** A byte-fetch attempt that fails with a requests exception whose cleanup
    [os.remove] succeeds. *)
Definition dl_req_err (a : dl_attempt) : Prop := exists written, a = DlReqErr written true.

(** A retried feed request: a requests exception, or an HTTP error status
    raised by [raise_for_status]. *)
Definition feed_transient (a : feed_attempt) : Prop :=
  a = FReqErr \/ exists status body, a = FResp status body /\ http_error_status status = true.

Definition is_dec (w : wstep) : bool := match w with WDecPending => true | _ => false end.

Definition has_dec (t : list wstep) : bool := existsb is_dec t.

(** The submitted tasks that have not yet run their [finally] decrement. *)
Definition in_flight (ts : list (list wstep)) : nat := List.length (filter has_dec ts).

(** The remaining counter updates of a task: done, or some updates followed by
    the single [finally] decrement. *)
Definition script_ok (t : list wstep) : Prop :=
  t = [] \/ exists pre, t = pre ++ [WDecPending] /\ ~ In WDecPending pre.

Definition entry_valid (e : hash_entry) : Prop :=
  exists h, entry_sha256 e = Some h /\ h <> EmptyString.

Definition todo_valid (p : coord) : Prop :=
  match p with
  | CSubmit _ todo => Forall entry_valid todo
  | _ => True
  end.

Definition pending_inv (c : Cfg) : Prop :=
  Forall script_ok (c_tasks c) /\
  pending_downloads_count (c_st c) = Z.of_nat (in_flight (c_tasks c)) /\
  todo_valid (c_pc c).

(** PageBatch as the data model describes it: the records of a page that have
    a hash identifier, whose hash is not in ProcessedSet, and whose hash no
    earlier record of the same page carries. *)
Definition hash_of (e : hash_entry) : option string := sha_truthy (entry_sha256 e).

Definition same_hash (h : string) (e : hash_entry) : bool :=
  match hash_of e with Some h' => String.eqb h h' | None => false end.

Fixpoint page_batch_spec (processed : list string) (earlier l : list hash_entry) : list hash_entry :=
  match l with
  | [] => []
  | e :: rest =>
      let keep := match hash_of e with
                  | None => false
                  | Some h => negb (mem h processed) && negb (existsb (same_hash h) earlier)
                  end in
      (if keep then [e] else []) ++ page_batch_spec processed (earlier ++ [e]) rest
  end.

Definition todo_hashes (todo : list hash_entry) : list string := map entry_hash todo.

Definition dedup_inv (init : list string) (c : Cfg) : Prop :=
  NoDup (c_submitted c) /\
  (forall h, In h init -> ~ In h (c_submitted c)) /\
  (forall h, In h (c_processed c) <-> In h init \/ In h (c_submitted c)) /\
  match c_pc c with
  | CSubmit _ todo =>
      Forall entry_valid todo /\ NoDup (todo_hashes todo) /\
      (forall h, In h (todo_hashes todo) -> ~ In h (c_processed c))
  | _ => True
  end.

(** Pages are requested as 1, 2, 3, ...; the page counter is the next page to
    request; a page is requested only after the previous page's tasks are done. *)
Definition order_inv (c : Cfg) : Prop :=
  c_fetched c = seq 1 (List.length (c_fetched c)) /\
  match c_pc c with
  | CTop p => p = S (List.length (c_fetched c)) /\ forallb task_done (c_tasks c) = true
  | CSubmit p _ | CJoin p => p = List.length (c_fetched c)
  | CDone _ => True
  end.

Definition is_inc_dl (w : wstep) : bool :=
  match w with WIncDownloaded => true | _ => false end.

Definition has_inc_dl (t : list wstep) : bool := existsb is_inc_dl t.

(** The submitted tasks that still have their [downloaded_count += 1] to run. *)
Definition to_succeed (ts : list (list wstep)) : nat := List.length (filter has_inc_dl ts).

(** The remaining updates of a task: nothing, the decrement, or one outcome
    update followed by the decrement. *)
Definition dl_shape (t : list wstep) : Prop :=
  t = [] \/ t = [WDecPending] \/ exists w, w <> WDecPending /\ t = [w; WDecPending].

Definition limit_inv (m : Z) (c : Cfg) : Prop :=
  Forall dl_shape (c_tasks c) /\
  downloaded_count (c_st c) + Z.of_nat (to_succeed (c_tasks c)) <= Z.max 0 m.






(** The number of calls that count [k] in [http_status_counts]. *)
Fixpoint status_count (calls : list stat_call) (k : Z) : Z :=
  match calls with
  | [] => 0
  | c :: r =>
      match status_code c with
      | Some code => if (code =? 0) || negb (code =? k) then 0 else 1
      | None => 0
      end + status_count r k
  end.

(** The number of calls that count [e] in [error_counts]. *)
Fixpoint error_count (calls : list stat_call) (e : string) : Z :=
  match calls with
  | [] => 0
  | c :: r =>
      match error_type c with
      | Some e' => if String.eqb e' EmptyString || negb (String.eqb e' e) then 0 else 1
      | None => 0
      end + error_count r e
  end.

(** * Properties *)

(** ** Admission *)

Lemma try_admit_cases (max : option Z) (s : St) :
  (should_stop s = true /\ try_admit max s = (false, s)) \/
  (should_stop s = false /\ (exists m, max = Some m /\ m <= downloaded_count s + pending_downloads_count s) /\
   try_admit max s = (false, mkSt (downloaded_count s) (pending_downloads_count s) (failed_count s)
                                   (skipped_existing_count s) true)) \/
  (should_stop s = false /\ (max = None \/ exists m, max = Some m /\ downloaded_count s + pending_downloads_count s < m) /\
   try_admit max s = (true, mkSt (downloaded_count s) (pending_downloads_count s + 1) (failed_count s)
                                 (skipped_existing_count s) false)).
Proof.
  unfold try_admit. destruct (should_stop s) eqn:Hs; [left; auto|right].
  destruct max as [m|].
  - destruct (Z.leb_spec m (downloaded_count s + pending_downloads_count s)).
    + left. split; [reflexivity|]. split; [eauto|reflexivity].
    + right. split; [reflexivity|]. split; [right; eauto|reflexivity].
  - right. split; [reflexivity|]. split; [left; reflexivity|reflexivity].
Qed.

(** C2: the submission check of one record of the page batch is one atomic
    decision on the shared state: the record is submitted iff, at the check,
    [should_stop] is false and there is no limit or
    [downloaded_count + pending_downloads_count < MAX_DOWNLOAD]; a submitted
    record increments [pending_downloads_count] and nothing else; a refused one
    leaves the counters alone, leaves [should_stop] set (it sets it when the
    limit is reached) and ends the page's submission loop. *)
Theorem admission_decision (max : option Z) (feed : nat -> page_fetch)
    (wenv : string -> worker_env) (c : Cfg) (page : nat) (e : hash_entry) (rest : list hash_entry)
    (Hpc : c_pc c = CSubmit page (e :: rest)) :
  let s := c_st c in
  let c' := coord_step max feed wenv c in
  let s' := c_st c' in
  (List.length (c_submitted c') = S (List.length (c_submitted c)) <->
   should_stop s = false /\
   (max = None \/ exists m, max = Some m /\ downloaded_count s + pending_downloads_count s < m)) /\
  (List.length (c_submitted c') = S (List.length (c_submitted c)) ->
   pending_downloads_count s' = pending_downloads_count s + 1 /\
   downloaded_count s' = downloaded_count s /\ should_stop s' = false /\
   c_pc c' = CSubmit page rest) /\
  (List.length (c_submitted c') <> S (List.length (c_submitted c)) ->
   c_submitted c' = c_submitted c /\ c_tasks c' = c_tasks c /\
   pending_downloads_count s' = pending_downloads_count s /\
   downloaded_count s' = downloaded_count s /\
   should_stop s' = true /\ c_pc c' = CJoin page /\
   (should_stop s = false ->
    exists m, max = Some m /\ m <= downloaded_count s + pending_downloads_count s)).
Proof.
  simpl. unfold coord_step. rewrite Hpc.
  destruct (try_admit_cases max (c_st c)) as [[Hs Ht]|[[Hs [Hm Ht]]|[Hs [Hm Ht]]]];
    rewrite Ht; simpl.
  - rewrite Hs. simpl. split; [split; [intros H; exfalso; lia|intros [H _]; discriminate]|].
    split; [intros H; exfalso; lia|]. intros _. repeat split; auto. congruence.
  - split; [split; [intros H; exfalso; lia|]|].
    + intros [_ [H|[m' [H1 H2]]]]; destruct Hm as [m [Hm1 Hm2]]; [congruence|].
      rewrite Hm1 in H1. injection H1 as <-. lia.
    + split; [intros H; exfalso; lia|]. intros _. repeat split; auto.
  - rewrite length_app. simpl.
    split; [split; [auto|lia]|]. split; [intros _; repeat split; auto|intros H; exfalso; lia].
Qed.

Lemma admission_decision_witness :
  List.length (c_submitted (coord_step (Some 1) (ex_feed [ex_entry "h"]) ex_wenv_ok
     (mkCfg (CSubmit 1 [ex_entry "h"]) st_init [] [] [] [1%nat]))) = 1%nat.
Proof.
  destruct (admission_decision (Some 1) (ex_feed [ex_entry "h"]) ex_wenv_ok
     (mkCfg (CSubmit 1 [ex_entry "h"]) st_init [] [] [] [1%nat]) 1 (ex_entry "h") [] eq_refl)
    as [[_ H] _].
  apply H. split; [reflexivity|right; exists 1; split; [reflexivity|simpl; lia]].
Defined.

(** ** The worker *)

Lemma apply_wsteps_app (ws1 ws2 : list wstep) (s : St) :
  apply_wsteps (ws1 ++ ws2) s = apply_wsteps ws2 (apply_wsteps ws1 s).
Proof. unfold apply_wsteps. apply fold_left_app. Qed.

Lemma sha_truthy_some (h : string) : h <> EmptyString -> sha_truthy (Some h) = Some h.
Proof.
  intros Hh. simpl. destruct (String.eqb_spec h EmptyString); [contradiction|reflexivity].
Qed.

Lemma link_loop_skip (env : nat -> link_attempt) (n fuel attempt : nat) :
  (attempt + n <= MAX_RETRIES)%nat ->
  (forall j, (attempt <= j < attempt + n)%nat -> link_transient (env j)) ->
  link_loop (n + fuel) attempt env = link_loop fuel (attempt + n) env.
Proof.
  revert attempt. induction n as [|n IH]; intros attempt Hle Htr.
  - rewrite Nat.add_0_r. reflexivity.
  - simpl. assert (Ha : (attempt <? MAX_RETRIES)%nat = true) by (apply Nat.ltb_lt; lia).
    destruct (Htr attempt ltac:(lia)) as [->|[status [body [-> [H404 [Herr| ->]]]]]].
    + rewrite Ha. rewrite IH; [f_equal; lia|lia|intros; apply Htr; lia].
    + apply Z.eqb_neq in H404. rewrite H404, Herr, Ha.
      rewrite IH; [f_equal; lia|lia|intros; apply Htr; lia].
    + apply Z.eqb_neq in H404. rewrite H404, Ha.
      destruct (http_error_status status);
        rewrite IH; (f_equal; lia) || lia || (intros; apply Htr; lia).
Qed.

Lemma get_download_link_404 (env : nat -> link_attempt) (i : nat) (body : option json) :
  (i <= MAX_RETRIES)%nat ->
  (forall j, (j < i)%nat -> link_transient (env j)) ->
  env i = LkResp 404 body ->
  get_download_link env = (LRet JNull, S i).
Proof.
  intros Hi Hpre H404. unfold get_download_link.
  replace (S MAX_RETRIES) with (i + S (MAX_RETRIES - i))%nat by lia.
  rewrite (link_loop_skip env i _ 0) by (simpl; auto with arith || (intros; apply Hpre; lia)).
  simpl. rewrite H404. reflexivity.
Qed.

Lemma apply_dec (s : St) :
  0 < pending_downloads_count s ->
  apply_wsteps [WDecPending] s =
  mkSt (downloaded_count s) (pending_downloads_count s - 1) (failed_count s)
       (skipped_existing_count s) (should_stop s).
Proof.
  intros Hp. unfold apply_wsteps. simpl. apply Z.ltb_lt in Hp. rewrite Hp. reflexivity.
Qed.

(** C4 (as amended): a link request answered with HTTP 404, possibly after
    retried failed attempts (requests exceptions, other HTTP error statuses,
    bodies that are not JSON), ends the link resolution at once (one request
    for it, no retry after it); the worker then makes no byte-fetch request,
    saves nothing, leaves [failed_count] and [downloaded_count] unchanged and
    only decrements [pending_downloads_count] in its [finally] block. *)
Theorem link_not_found_no_fetch (h : string) (env : worker_env) (i : nat)
    (body : option json) (s : St)
    (Hh : h <> EmptyString) (Hi : (i <= MAX_RETRIES)%nat)
    (Hpre : forall j, (j < i)%nat -> link_transient (we_link env j))
    (H404 : we_link env i = LkResp 404 body)
    (Hp : 0 < pending_downloads_count s) :
  let r := process_hash_entry (Some h) env in
  let s' := apply_wsteps (w_steps r) s in
  w_link_attempts r = S i /\ w_fetch_attempts r = 0%nat /\ w_saved r = false /\
  w_file r = we_file env /\
  failed_count s' = failed_count s /\ downloaded_count s' = downloaded_count s /\
  pending_downloads_count s' = pending_downloads_count s - 1.
Proof.
  unfold process_hash_entry. rewrite sha_truthy_some by exact Hh.
  rewrite (get_download_link_404 _ i body Hi Hpre H404). simpl.
  unfold apply_wsteps. simpl. apply Z.ltb_lt in Hp. rewrite Hp. simpl.
  repeat split; reflexivity.
Qed.

Lemma link_not_found_no_fetch_witness :
  w_link_attempts (process_hash_entry (Some "h"%string) ex_wenv_nonjson_404) = 2%nat /\
  w_fetch_attempts (process_hash_entry (Some "h"%string) ex_wenv_nonjson_404) = 0%nat.
Proof.
  destruct (link_not_found_no_fetch "h" ex_wenv_nonjson_404 1 None (mkSt 0 1 0 0 false)
              ltac:(discriminate) ltac:(unfold MAX_RETRIES; lia)
              ltac:(intros j Hj; destruct j as [|j]; [|lia];
                    right; exists 200, None; repeat split; [discriminate|right; reflexivity])
              eq_refl ltac:(simpl; lia)) as [H1 [H2 _]].
  split; [exact H1|exact H2].
Defined.

(** C4 refuted as stated: after a 404 on the link request [failed_count]
    is not incremented ([recordFailure] is not what the code does). *)
Lemma link_not_found_failed_unchanged :
  failed_count (apply_wsteps (w_steps (process_hash_entry (Some "h"%string) ex_wenv_404))
                             (mkSt 0 1 0 0 false)) = 0 /\
  pending_downloads_count (apply_wsteps (w_steps (process_hash_entry (Some "h"%string) ex_wenv_404))
                             (mkSt 0 1 0 0 false)) = 0.
Proof. split; vm_compute; reflexivity. Qed.

(** C3 (as amended): when the destination file already exists the worker
    makes no byte-fetch request and does not increment [downloaded_count];
    its only effect on the limit is the [finally] decrement of
    [pending_downloads_count], so once the task ends the file holds no unit of
    the limit. When the link resolves, the file is counted in
    [skipped_existing_count] and the hash is saved to the processed log. *)
Theorem existing_file_no_fetch_not_counted (h : string) (env : worker_env) (n : Z) (s : St)
    (Hh : h <> EmptyString) (Hf : we_file env = Some n)
    (Hp : 0 < pending_downloads_count s) :
  let r := process_hash_entry (Some h) env in
  let s' := apply_wsteps (w_steps r) s in
  w_fetch_attempts r = 0%nat /\ w_file r = Some n /\
  downloaded_count s' = downloaded_count s /\ failed_count s' = failed_count s /\
  pending_downloads_count s' = pending_downloads_count s - 1 /\
  (forall v, fst (get_download_link (we_link env)) = LRet v -> truthy v = true ->
     w_saved r = true /\ skipped_existing_count s' = skipped_existing_count s + 1).
Proof.
  assert (Hp' := Hp). apply Z.ltb_lt in Hp'.
  unfold process_hash_entry. rewrite sha_truthy_some by exact Hh.
  destruct (get_download_link (we_link env)) as [lk nl]. cbn [fst].
  destruct lk as [v|]; [destruct (truthy v) eqn:Hv|];
    [unfold download_file; rewrite Hf| |];
    unfold apply_wsteps; simpl; rewrite Hp'; simpl;
    repeat (split; [first [reflexivity | lia | congruence]|]).
  all: first [reflexivity | congruence].
Qed.

Lemma existing_file_no_fetch_not_counted_witness :
  w_fetch_attempts (process_hash_entry (Some "h"%string) ex_wenv_existing) = 0%nat.
Proof.
  destruct (existing_file_no_fetch_not_counted "h" ex_wenv_existing 4096 (mkSt 0 1 0 0 false)
              ltac:(discriminate) eq_refl ltac:(simpl; lia)) as [H _].
  exact H.
Defined.

(** C3 refuted as stated: from one admitted task, an already-present file
    leaves [downloaded_count] at 0 instead of raising it to 1. *)
Lemma existing_file_not_a_success :
  downloaded_count (apply_wsteps (w_steps (process_hash_entry (Some "h"%string) ex_wenv_existing))
                                 (mkSt 0 1 0 0 false)) = 0 /\
  pending_downloads_count (apply_wsteps (w_steps (process_hash_entry (Some "h"%string) ex_wenv_existing))
                                 (mkSt 0 1 0 0 false)) = 0.
Proof. split; vm_compute; reflexivity. Qed.

Lemma dl_loop_skip (env : nat -> dl_attempt) (n fuel attempt : nat) (fails : list (option Z)) :
  (attempt + n <= MAX_RETRIES)%nat ->
  (forall j, (attempt <= j < attempt + n)%nat -> dl_req_err (env j)) ->
  dl_loop (n + fuel) attempt env None fails =
  dl_loop fuel (attempt + n) env None (fails ++ repeat None n).
Proof.
  revert attempt fails. induction n as [|n IH]; intros attempt fails Hle Herr.
  - rewrite Nat.add_0_r, app_nil_r. reflexivity.
  - simpl. assert (Ha : (attempt <? MAX_RETRIES)%nat = true) by (apply Nat.ltb_lt; lia).
    destruct (Herr attempt ltac:(lia)) as [written ->].
    assert (Hnone : match match written with
                          | Some chunks => Some (sum_chunks chunks)
                          | None => None
                          end with
                    | Some _ => None
                    | None => None
                    end = @None Z) by (destruct written; reflexivity).
    simpl. rewrite Hnone, Ha.
    rewrite IH; [|lia|intros; apply Herr; lia].
    rewrite <- app_assoc. simpl. f_equal. lia.
Qed.

Lemma dl_loop_skip_any (env : nat -> dl_attempt) (n fuel attempt : nat) (file : option Z)
    (fails : list (option Z)) :
  (attempt + n <= MAX_RETRIES)%nat ->
  (forall j, (attempt <= j < attempt + n)%nat -> exists written rm, env j = DlReqErr written rm) ->
  exists file' fails', List.length fails' = (List.length fails + n)%nat /\
    dl_loop (n + fuel) attempt env file fails = dl_loop fuel (attempt + n) env file' fails'.
Proof.
  revert attempt file fails. induction n as [|n IH]; intros attempt file fails Hle Herr.
  - exists file, fails. rewrite !Nat.add_0_r. split; reflexivity.
  - destruct (Herr attempt ltac:(lia)) as [written [rm E]].
    assert (Ha : (attempt <? MAX_RETRIES)%nat = true) by (apply Nat.ltb_lt; lia).
    cbn [Nat.add dl_loop]. rewrite E, Ha.
    match goal with |- context [dl_loop (n + fuel) (S attempt) env ?f ?fs] =>
      destruct (IH (S attempt) f fs ltac:(lia) ltac:(intros; apply Herr; lia)) as [f' [fs' [Hl Heq]]]
    end.
    exists f', fs'. rewrite length_app in Hl. simpl in Hl. split; [lia|].
    rewrite Heq. f_equal. lia.
Qed.

Lemma dl_loop_fails_clean (env : nat -> dl_attempt) :
  forall fuel attempt file fails,
  List.length fails = attempt ->
  (forall j written, (j < List.length fails)%nat -> env j = DlReqErr written true ->
                     nth_error fails j = Some None) ->
  forall j written, (j < List.length (dl_after_fail (dl_loop fuel attempt env file fails)))%nat ->
  env j = DlReqErr written true -> nth_error (dl_after_fail (dl_loop fuel attempt env file fails)) j = Some None.
Proof.
  induction fuel as [|fuel IH]; intros attempt file fails Hlen Hf; simpl; [exact Hf|].
  destruct (env attempt) as [chunks|written rm|written] eqn:E; simpl; try exact Hf.
  match goal with |- context [fails ++ [?F]] => set (f2 := F) end.
  assert (Hf' : forall j w, (j < List.length (fails ++ [f2]))%nat -> env j = DlReqErr w true ->
                            nth_error (fails ++ [f2]) j = Some None).
  { intros j w Hj Ej. rewrite length_app in Hj. simpl in Hj.
    destruct (Nat.lt_ge_cases j (List.length fails)) as [Hlt|Hge].
    - rewrite nth_error_app1 by exact Hlt. exact (Hf j w Hlt Ej).
    - assert (j = attempt) by lia. subst j.
      rewrite nth_error_app2 by lia. rewrite Hlen, Nat.sub_diag. simpl.
      rewrite E in Ej. injection Ej as _ Hrm. subst rm f2.
      destruct (match written with Some chunks => Some (sum_chunks chunks) | None => file end);
        reflexivity. }
  destruct (attempt <? MAX_RETRIES)%nat; simpl.
  - apply IH; [rewrite length_app; simpl; lia|exact Hf'].
  - exact Hf'.
Qed.

(** [download_file]'s retry loop for byte fetches that fail with requests
    exceptions (raised by the request or while streaming): every failed
    attempt whose cleanup [os.remove] succeeds leaves no file behind it; if
    [k <= MAX_RETRIES] such failures are followed by a successful attempt,
    exactly one success is recorded ([downloaded_count + 1]), nothing is
    recorded as failed, and the final file holds the successful attempt's
    bytes; if all [MAX_RETRIES + 1] attempts fail so, [failed_count] is
    incremented, and no file is left when the last cleanup succeeds. *)
Theorem fetch_failures_cleaned_and_retried (h : string) (env : worker_env) (v : json) (s : St)
    (Hh : h <> EmptyString)
    (Hlink : fst (get_download_link (we_link env)) = LRet v) (Hv : truthy v = true)
    (Hfile : we_file env = None)
    (Hp : 0 < pending_downloads_count s) :
  let r := process_hash_entry (Some h) env in
  let s' := apply_wsteps (w_steps r) s in
  (forall j written, (j < List.length (w_after_fail r))%nat -> we_dl env j = DlReqErr written true ->
     nth_error (w_after_fail r) j = Some None) /\
  (forall k chunks, (k <= MAX_RETRIES)%nat ->
     (forall j, (j < k)%nat -> exists written rm, we_dl env j = DlReqErr written rm) ->
     we_dl env k = DlOk chunks ->
     w_fetch_attempts r = S k /\ List.length (w_after_fail r) = k /\
     w_file r = Some (sum_chunks chunks) /\ w_saved r = true /\
     downloaded_count s' = downloaded_count s + 1 /\ failed_count s' = failed_count s /\
     pending_downloads_count s' = pending_downloads_count s - 1) /\
  ((forall j, (j <= MAX_RETRIES)%nat -> exists written rm, we_dl env j = DlReqErr written rm) ->
     w_fetch_attempts r = S MAX_RETRIES /\ List.length (w_after_fail r) = S MAX_RETRIES /\
     w_saved r = false /\
     failed_count s' = failed_count s + 1 /\ downloaded_count s' = downloaded_count s /\
     pending_downloads_count s' = pending_downloads_count s - 1 /\
     (forall written, we_dl env MAX_RETRIES = DlReqErr written true -> w_file r = None)).
Proof.
  assert (Hp' := Hp). apply Z.ltb_lt in Hp'.
  unfold process_hash_entry. rewrite sha_truthy_some by exact Hh.
  destruct (get_download_link (we_link env)) as [lk nl]. cbn [fst] in Hlink. subst lk.
  rewrite Hv. unfold download_file. rewrite Hfile.
  split; [|split].
  - cbn [w_after_fail]. intros j written Hj E.
    apply (dl_loop_fails_clean (we_dl env) (S MAX_RETRIES) 0 None [] eq_refl) with (written := written);
      [intros j' w' Hj'; simpl in Hj'; lia|exact Hj|exact E].
  - intros k chunks Hk Hpre Hok.
    replace (S MAX_RETRIES) with (k + S (MAX_RETRIES - k))%nat by lia.
    destruct (dl_loop_skip_any (we_dl env) k (S (MAX_RETRIES - k)) 0 None []
                ltac:(simpl; lia) ltac:(intros j Hj; apply Hpre; lia)) as [f' [fs' [Hl Heq]]].
    rewrite Heq. simpl. rewrite Hok. simpl.
    unfold apply_wsteps. simpl. rewrite Hp'. simpl. simpl in Hl.
    repeat split; try reflexivity; lia.
  - intros Hall.
    change (S MAX_RETRIES) with (MAX_RETRIES + 1)%nat.
    destruct (dl_loop_skip_any (we_dl env) MAX_RETRIES 1 0 None []
                ltac:(simpl; lia) ltac:(intros j Hj; apply Hall; lia)) as [f' [fs' [Hl Heq]]].
    rewrite Heq. destruct (Hall MAX_RETRIES (le_n _)) as [written [rm Hw]].
    simpl. rewrite Hw. simpl.
    unfold apply_wsteps. simpl. rewrite Hp'. simpl. simpl in Hl.
    repeat split; try reflexivity; try (rewrite length_app; simpl; unfold MAX_RETRIES in *; lia).
    intros written' Hw'. injection Hw' as _ Hrm. subst rm.
    destruct (match written with Some chunks => Some (sum_chunks chunks) | None => f' end); reflexivity.
Qed.

Lemma fetch_failures_cleaned_and_retried_witness :
  w_file (process_hash_entry (Some "h"%string) ex_wenv_retry) = Some (8192 + 8192 + 10).
Proof.
  destruct (fetch_failures_cleaned_and_retried "h" ex_wenv_retry
              (JStr "https://dl.example/h") (mkSt 0 1 0 0 false)
              ltac:(discriminate) eq_refl eq_refl eq_refl ltac:(simpl; lia)) as [_ [H _]].
  destruct (H 2%nat [8192; 8192; 10] ltac:(unfold MAX_RETRIES; lia)
              ltac:(intros j Hj; destruct j as [|[|j]]; [eexists; eexists; reflexivity
                                                       |eexists; eexists; reflexivity|lia])
              eq_refl) as [_ [_ [Hf _]]].
  exact Hf.
Defined.

(** C8 fails: a byte fetch that stops on a local write error ([file.write]
    raising an [OSError], e.g. a full disk), possibly after requests failures
    whose cleanup succeeded, is not a requests exception: it escapes
    [download_file] to the [except Exception] of [process_hash_entry]. The
    partial file stays in place (no cleanup), the fetch is not retried, no
    failure is counted, and the hash is not saved. In the next session the
    hash is resubmitted, and the worker finds the partial file, counts it as
    already present and saves the hash: the truncated file is kept for good. *)
Theorem write_error_leaves_partial_file (h : string) (env env2 : worker_env) (v v2 : json)
    (k : nat) (chunks : list Z) (s : St)
    (Hh : h <> EmptyString)
    (Hlink : fst (get_download_link (we_link env)) = LRet v) (Hv : truthy v = true)
    (Hfile : we_file env = None) (Hk : (k <= MAX_RETRIES)%nat)
    (Hpre : forall j, (j < k)%nat -> dl_req_err (we_dl env j))
    (Hw : we_dl env k = DlWriteErr (Some chunks))
    (Hp : 0 < pending_downloads_count s)
    (Hlink2 : fst (get_download_link (we_link env2)) = LRet v2) (Hv2 : truthy v2 = true) :
  let r := process_hash_entry (Some h) env in
  let s' := apply_wsteps (w_steps r) s in
  w_file r = Some (sum_chunks chunks) /\ w_fetch_attempts r = S k /\ w_saved r = false /\
  failed_count s' = failed_count s /\ downloaded_count s' = downloaded_count s /\
  pending_downloads_count s' = pending_downloads_count s - 1 /\
  (we_file env2 = w_file r ->
   let r2 := process_hash_entry (Some h) env2 in
   w_saved r2 = true /\ w_fetch_attempts r2 = 0%nat /\ w_file r2 = Some (sum_chunks chunks) /\
   w_steps r2 = [WIncSkippedExisting; WDecPending]).
Proof.
  assert (Hp' := Hp). apply Z.ltb_lt in Hp'.
  assert (Hr : process_hash_entry (Some h) env =
               mkW [WDecPending] (snd (get_download_link (we_link env))) (S k)
                   (Some (sum_chunks chunks)) false (repeat None k)).
  { unfold process_hash_entry. rewrite sha_truthy_some by exact Hh.
    destruct (get_download_link (we_link env)) as [lk nl]. cbn [fst] in Hlink. subst lk.
    rewrite Hv. unfold download_file. rewrite Hfile.
    replace (S MAX_RETRIES) with (k + S (MAX_RETRIES - k))%nat by lia.
    rewrite (dl_loop_skip _ k _ 0 []); [|simpl; lia|intros j Hj; apply Hpre; lia].
    simpl. rewrite Hw. reflexivity. }
  assert (Hr2 : we_file env2 = Some (sum_chunks chunks) ->
                process_hash_entry (Some h) env2 =
                mkW [WIncSkippedExisting; WDecPending] (snd (get_download_link (we_link env2))) 0
                    (Some (sum_chunks chunks)) true []).
  { intros Hf2. unfold process_hash_entry. rewrite sha_truthy_some by exact Hh.
    destruct (get_download_link (we_link env2)) as [lk nl]. cbn [fst] in Hlink2. subst lk.
    rewrite Hv2. unfold download_file. rewrite Hf2. reflexivity. }
  cbv zeta. rewrite Hr. cbn [w_file w_fetch_attempts w_saved w_steps].
  unfold apply_wsteps. simpl. rewrite Hp'. simpl.
  repeat split; try reflexivity; rewrite Hr2 by assumption; reflexivity.
Qed.

Lemma write_error_leaves_partial_file_witness :
  w_file (process_hash_entry (Some "h"%string) ex_wenv_write_err) = Some 8192 /\
  w_saved (process_hash_entry (Some "h"%string) (mkWEnv ex_link_ok (Some 8192) (fun _ => DlOk [8192])))
    = true.
Proof.
  destruct (write_error_leaves_partial_file "h" ex_wenv_write_err
              (mkWEnv ex_link_ok (Some 8192) (fun _ => DlOk [8192]))
              (JStr "https://dl.example/h") (JStr "https://dl.example/h") 0 [8192] (mkSt 0 1 0 0 false)
              ltac:(discriminate) eq_refl eq_refl eq_refl ltac:(unfold MAX_RETRIES; lia)
              ltac:(intros; lia) eq_refl ltac:(simpl; lia) eq_refl eq_refl)
    as [Hf [_ [_ [_ [_ [_ H2]]]]]].
  split; [exact Hf|].
  destruct (H2 eq_refl) as [Hs _]. exact Hs.
Defined.

(** ** Fetching a feed page *)

Lemma feed_loop_skip (env : nat -> feed_attempt) (n fuel attempt : nat) :
  (attempt + n <= MAX_RETRIES)%nat ->
  (forall j, (attempt <= j < attempt + n)%nat -> feed_transient (env j)) ->
  feed_loop (n + fuel) attempt env = feed_loop fuel (attempt + n) env.
Proof.
  revert attempt. induction n as [|n IH]; intros attempt Hle Htr.
  - rewrite Nat.add_0_r. reflexivity.
  - simpl. assert (Ha : (attempt <? MAX_RETRIES)%nat = true) by (apply Nat.ltb_lt; lia).
    destruct (Htr attempt ltac:(lia)) as [->|[status [body [-> Herr]]]].
    + rewrite Ha. rewrite IH; [f_equal; lia|lia|intros; apply Htr; lia].
    + rewrite Herr, Ha. rewrite IH; [f_equal; lia|lia|intros; apply Htr; lia].
Qed.

Lemma fetch_hashes_page_at (env : nat -> feed_attempt) (i : nat) (status : Z) (body : option json) :
  (i <= MAX_RETRIES)%nat ->
  (forall j, (j < i)%nat -> feed_transient (env j)) ->
  env i = FResp status body -> http_error_status status = false ->
  fetch_hashes_page env = mkFeed (fst (decode_page body)) (S i) (snd (decode_page body)).
Proof.
  intros Hi Hpre Hresp Hst. unfold fetch_hashes_page.
  replace (S MAX_RETRIES) with (i + S (MAX_RETRIES - i))%nat by lia.
  rewrite (feed_loop_skip env i _ 0); [|simpl; lia|intros; apply Hpre; lia].
  simpl. rewrite Hresp, Hst. destruct (decode_page body); reflexivity.
Qed.

(** C7 (as amended): a page response that passes [raise_for_status] but whose
    body cannot be decoded is recorded as a JSON decode error and ends the page
    fetch at once: [fetch_hashes_page] returns [None] after that request, with
    no retry, whatever retries preceded it; the paginator then stops. *)
Theorem malformed_page_not_retried (env : nat -> feed_attempt) (i : nat) (status : Z)
    (Hi : (i <= MAX_RETRIES)%nat)
    (Hpre : forall j, (j < i)%nat -> feed_transient (env j))
    (Hbad : env i = FResp status None) (Hst : http_error_status status = false) :
  fetch_hashes_page env = mkFeed FNone (S i) [FeJsonDecode] /\
  page_of_feed FNone = Some PNone /\
  (forall max feed wenv c page,
     c_pc c = CTop page -> should_stop (c_st c) = false -> feed page = PNone ->
     c_pc (coord_step max feed wenv c) = CDone RFeedError).
Proof.
  split; [|split; [reflexivity|]].
  - rewrite (fetch_hashes_page_at env i status None Hi Hpre Hbad Hst). reflexivity.
  - intros max feed wenv c page Hpc Hs Hf. unfold coord_step. rewrite Hpc, Hs, Hf. reflexivity.
Qed.

Lemma malformed_page_not_retried_witness :
  fetch_hashes_page (fun _ => FResp 200 None) = mkFeed FNone 1 [FeJsonDecode].
Proof.
  destruct (malformed_page_not_retried (fun _ => FResp 200 None) 0 200
              ltac:(unfold MAX_RETRIES; lia) ltac:(intros; lia) eq_refl eq_refl) as [H _].
  exact H.
Defined.

(** C7 refuted as stated: an undecodable page body is requested once, not
    [MAX_RETRIES + 1] times. *)
Lemma malformed_page_single_request :
  fr_requests (fetch_hashes_page (fun _ => FResp 200 None)) = 1%nat /\
  fr_ret (fetch_hashes_page (fun _ => FResp 200 None)) = FNone.
Proof. split; reflexivity. Qed.

(** A decoded object without a ['data'] list is read as an empty page in one
    request, and the paginator stops on it as on an empty page. *)
Lemma object_without_data_list_is_empty_page (env : nat -> feed_attempt) (kvs : list (string * json))
    (i : nat) (status : Z) :
  (i <= MAX_RETRIES)%nat ->
  (forall j, (j < i)%nat -> feed_transient (env j)) ->
  env i = FResp status (Some (JObj kvs)) -> http_error_status status = false ->
  (forall recs, obj_get kvs "data" <> Some (JArr recs)) ->
  fetch_hashes_page env = mkFeed (FData []) (S i) [] /\
  page_of_feed (FData []) = Some (PData []) /\
  (forall max feed wenv c page,
     c_pc c = CTop page -> should_stop (c_st c) = false -> feed page = PData [] ->
     c_pc (coord_step max feed wenv c) = CDone REmptyPage).
Proof.
  intros Hi Hpre Hresp Hst Hnot. split; [|split; [reflexivity|]].
  - rewrite (fetch_hashes_page_at env i status _ Hi Hpre Hresp Hst).
    unfold decode_page, py_contains_data.
    destruct (obj_get kvs "data") as [[]|] eqn:E; try reflexivity.
    exfalso. eapply Hnot. reflexivity.
  - intros max feed wenv c page Hpc Hs Hf. unfold coord_step. rewrite Hpc, Hs, Hf. reflexivity.
Qed.

(** C10 fails on a body that decodes to a JSON value that is not a container
    ([null] here): ['data' in hashes_data] raises a [TypeError] that no handler
    catches, so no empty page is returned and the run ends without a report. *)
Lemma null_page_body_raises :
  fetch_hashes_page (fun _ => FResp 200 (Some JNull)) = mkFeed FRaise 1 [] /\
  page_of_feed FRaise = Some PRaise /\
  main "key" true None LogMissing (fun _ => PRaise) ex_wenv_ok [SCoord] = MCrash.
Proof. repeat split; reflexivity. Qed.

(** ** The in-flight counter over whole runs *)

Lemma dl_loop_steps (fuel attempt : nat) (env : nat -> dl_attempt) (file : option Z) fails :
  ~ In WDecPending (dl_steps (dl_loop fuel attempt env file fails)).
Proof.
  revert attempt file fails. induction fuel as [|fuel IH]; intros attempt file fails; simpl.
  - tauto.
  - destruct (env attempt); simpl; [| |tauto].
    + intros [H|H]; [discriminate|exact H].
    + destruct (attempt <? MAX_RETRIES)%nat; [apply IH|simpl; intros [H|H]; [discriminate|exact H]].
Qed.

Lemma worker_script_ok (h : string) (env : worker_env) :
  h <> EmptyString ->
  script_ok (w_steps (process_hash_entry (Some h) env)) /\
  has_dec (w_steps (process_hash_entry (Some h) env)) = true.
Proof.
  intros Hh. unfold process_hash_entry. rewrite sha_truthy_some by exact Hh.
  destruct (get_download_link (we_link env)) as [[v|] nl]; simpl.
  - destruct (truthy v); simpl.
    + assert (Hno : ~ In WDecPending (dl_steps (download_file (we_file env) (we_dl env)))).
      { unfold download_file. destruct (we_file env).
        - simpl. intros [H|H]; [discriminate|exact H].
        - apply dl_loop_steps. }
      split.
      * right. eexists. split; [reflexivity|exact Hno].
      * unfold has_dec. rewrite existsb_app. simpl. apply orb_true_r.
    + split; [right; exists []; split; [reflexivity|simpl; tauto]|reflexivity].
  - split; [right; exists []; split; [reflexivity|simpl; tauto]|reflexivity].
Qed.

Lemma script_ok_step (w : wstep) (rest : list wstep) :
  script_ok (w :: rest) ->
  script_ok rest /\
  (w = WDecPending -> rest = []) /\
  (w <> WDecPending -> has_dec rest = true).
Proof.
  intros [H|[pre [Hpre Hnin]]]; [discriminate|].
  destruct pre as [|w' pre']; simpl in Hpre; injection Hpre as -> ->.
  - split; [left; reflexivity|]. split; [auto|intros H; contradiction].
  - split; [right; exists pre'; split; [reflexivity|intros H; apply Hnin; right; exact H]|].
    split; [intros ->; exfalso; apply Hnin; left; reflexivity|].
    intros _. unfold has_dec. rewrite existsb_app. simpl. apply orb_true_r.
Qed.

Lemma in_flight_app (ts : list (list wstep)) (t : list wstep) :
  in_flight (ts ++ [t]) = (in_flight ts + (if has_dec t then 1 else 0))%nat.
Proof.
  unfold in_flight. rewrite filter_app, length_app. simpl. destruct (has_dec t); reflexivity.
Qed.

Lemma in_flight_upd (ts : list (list wstep)) (i : nat) (t t' : list wstep) :
  nth_error ts i = Some t ->
  (in_flight (upd_nth i t' ts) + (if has_dec t then 1 else 0) =
   in_flight ts + (if has_dec t' then 1 else 0))%nat.
Proof.
  unfold in_flight. revert i. induction ts as [|x ts IH]; intros [|i] Hn; simpl in *; try discriminate.
  - injection Hn as ->. destruct (has_dec t), (has_dec t'); simpl; lia.
  - specialize (IH i Hn). destruct (has_dec x); simpl; lia.
Qed.

Lemma Forall_upd {A : Type} (P : A -> Prop) (ts : list A) (i : nat) (x : A) :
  Forall P ts -> P x -> Forall P (upd_nth i x ts).
Proof.
  revert i. induction ts as [|y ts IH]; intros [|i] Hall Hx; simpl; auto;
    inversion Hall; subst; constructor; auto.
Qed.

Lemma filter_page_valid (processed seen : list string) (l : list hash_entry) :
  Forall entry_valid (filter_page processed seen l).
Proof.
  revert seen. induction l as [|e l IH]; intros seen; simpl; [constructor|].
  destruct (entry_sha256 e) as [h|] eqn:Ee; simpl; [|apply IH].
  destruct (String.eqb_spec h EmptyString); [apply IH|].
  destruct (mem h processed); [apply IH|]. destruct (mem h seen); [apply IH|].
  constructor; [exists h; auto|apply IH].
Qed.

Lemma coord_step_pending_inv (max : option Z) (feed : nat -> page_fetch)
    (wenv : string -> worker_env) (c : Cfg) :
  pending_inv c -> pending_inv (coord_step max feed wenv c).
Proof.
  intros [Hscr [Hpend Htodo]]. unfold coord_step.
  destruct (c_pc c) as [page|page todo|page|r] eqn:Hpc.
  - destruct (should_stop (c_st c)); [repeat split; try assumption; rewrite Hpc; exact Htodo|].
    destruct (feed page) as [[|e recs]| |]; try (repeat split; try assumption; rewrite Hpc; exact Htodo).
    destruct (filter_page (c_processed c) [] (e :: recs)) as [|b bs] eqn:Eb;
      (repeat split; try assumption).
    simpl. rewrite <- Eb. apply filter_page_valid.
  - destruct todo as [|e rest]; [repeat split; try assumption; rewrite Hpc; exact Htodo|].
    simpl in Htodo. inversion Htodo as [|? ? [h [Eh Hh]] Hrest]; subst.
    destruct (try_admit_cases max (c_st c)) as [[Hs Ht]|[[Hs [Hm Ht]]|[Hs [Hm Ht]]]];
      rewrite Ht; simpl.
    + rewrite Hs. repeat split; try assumption; rewrite Hpc; exact Htodo.
    + repeat split; try assumption; rewrite Hpc; exact Htodo.
    + unfold entry_hash. rewrite Eh. destruct (worker_script_ok h (wenv h) Hh) as [Hok Hdec].
      repeat split; simpl.
      * apply Forall_app. split; [assumption|constructor; [exact Hok|constructor]].
      * rewrite in_flight_app, Hdec. lia.
      * exact Hrest.
  - destruct (forallb task_done (c_tasks c)); [|repeat split; try assumption; rewrite Hpc; exact Htodo].
    destruct (should_stop (c_st c)); repeat split; try assumption; rewrite Hpc; exact Htodo.
  - repeat split; try assumption; rewrite Hpc; exact Htodo.
Qed.

Lemma work_step_pending_inv (i : nat) (c : Cfg) :
  pending_inv c -> pending_inv (work_step i c).
Proof.
  intros [Hscr [Hpend Htodo]]. unfold work_step.
  destruct (nth_error (c_tasks c) i) as [[|w rest]|] eqn:Hn; try (repeat split; assumption).
  assert (Hok : script_ok (w :: rest)).
  { eapply Forall_forall; [exact Hscr|]. eapply nth_error_In. exact Hn. }
  destruct (script_ok_step w rest Hok) as [Hrest [Hlast Hmid]].
  pose proof (in_flight_upd (c_tasks c) i (w :: rest) rest Hn) as Hcnt.
  repeat split; simpl.
  - apply Forall_upd; assumption.
  - destruct w; simpl.
    4: { rewrite (Hlast eq_refl) in Hcnt |- *. simpl in Hcnt.
         assert (Hpos : 0 < pending_downloads_count (c_st c)) by lia.
         apply Z.ltb_lt in Hpos. rewrite Hpos. simpl. lia. }
    all: pose proof (Hmid ltac:(discriminate)) as Hr; unfold has_dec in Hcnt, Hr;
         simpl in Hcnt; rewrite Hr in Hcnt; rewrite Hpend; lia.
  - exact Htodo.
Qed.

Lemma run_pending_inv (max : option Z) (feed : nat -> page_fetch) (wenv : string -> worker_env)
    (ss : list sched) :
  forall c, pending_inv c -> pending_inv (run max feed wenv c ss).
Proof.
  induction ss as [|s ss IH]; intros c Hc; simpl; [exact Hc|].
  apply IH. destruct s; [apply coord_step_pending_inv|apply work_step_pending_inv]; exact Hc.
Qed.

Lemma initial_pending_inv (max : option Z) (log : option (list string)) :
  pending_inv (initial_cfg max log).
Proof.
  unfold initial_cfg. repeat split; try constructor.
  destruct max as [[| |]|]; reflexivity.
Qed.

Lemma in_flight_done (ts : list (list wstep)) :
  forallb task_done ts = true -> in_flight ts = 0%nat.
Proof.
  unfold in_flight. induction ts as [|t ts IH]; simpl; [reflexivity|].
  intros H. apply andb_true_iff in H as [Ht Hts]. destruct t; [|discriminate]. simpl. auto.
Qed.

(** C9: along every interleaving of the coordinator's and the workers'
    steps from the start of a run, [pending_downloads_count] is never negative:
    it always equals the number of submitted tasks that have not yet run their
    [finally] decrement; each such task has exactly one decrement left, as its
    last counter update (so the guard [pending_downloads_count > 0] never
    blocks it); and once every submitted task has completed it is zero. *)
Theorem pending_never_negative (max : option Z) (feed : nat -> page_fetch)
    (wenv : string -> worker_env) (log : option (list string)) (ss : list sched) :
  let c := run max feed wenv (initial_cfg max log) ss in
  0 <= pending_downloads_count (c_st c) /\
  pending_downloads_count (c_st c) = Z.of_nat (in_flight (c_tasks c)) /\
  Forall script_ok (c_tasks c) /\
  (forallb task_done (c_tasks c) = true -> pending_downloads_count (c_st c) = 0).
Proof.
  destruct (run_pending_inv max feed wenv ss _ (initial_pending_inv max log)) as [Hscr [Hp _]].
  split; [lia|]. split; [exact Hp|]. split; [exact Hscr|].
  intros Hd. rewrite Hp, (in_flight_done _ Hd). reflexivity.
Qed.

(** ** Deduplication of feed records *)

Lemma mem_In (h : string) (l : list string) : mem h l = true <-> In h l.
Proof.
  unfold mem. rewrite existsb_exists. split.
  - intros [x [Hx E]]. apply String.eqb_eq in E. subst. exact Hx.
  - intros Hh. exists h. split; [exact Hh|apply String.eqb_refl].
Qed.

Lemma filter_page_props (processed : list string) (l : list hash_entry) :
  forall seen,
  let b := filter_page processed seen l in
  NoDup (todo_hashes b) /\
  (forall h, In h (todo_hashes b) -> ~ In h processed /\ ~ In h seen).
Proof.
  induction l as [|e l IH]; intros seen; simpl.
  - split; [constructor|intros h []].
  - destruct (entry_sha256 e) as [h|] eqn:Ee; simpl; [|apply IH].
    destruct (String.eqb_spec h EmptyString); [apply IH|].
    destruct (mem h processed) eqn:Hp; [apply IH|].
    destruct (mem h seen) eqn:Hs; [apply IH|].
    destruct (IH (h :: seen)) as [Hnd Hnot].
    assert (Eh : entry_hash e = h) by (unfold entry_hash; rewrite Ee; reflexivity).
    simpl. rewrite Eh. split.
    + constructor; [|exact Hnd]. intros Hin. destruct (Hnot h Hin) as [_ Hn]. apply Hn. left. reflexivity.
    + intros h' [<-|Hin].
      * split; intros Hin; [apply mem_In in Hin; congruence|apply mem_In in Hin; congruence].
      * destruct (Hnot h' Hin) as [H1 H2]. split; [exact H1|intros Hs'; apply H2; right; exact Hs'].
Qed.

Lemma existsb_same_hash_app (h : string) (earlier : list hash_entry) (e : hash_entry) :
  existsb (same_hash h) (earlier ++ [e]) = existsb (same_hash h) earlier || same_hash h e.
Proof. rewrite existsb_app. simpl. rewrite orb_false_r. reflexivity. Qed.

Lemma filter_page_spec_gen (processed : list string) (l : list hash_entry) :
  forall seen earlier,
  (forall h, mem h processed = false -> mem h seen = existsb (same_hash h) earlier) ->
  filter_page processed seen l = page_batch_spec processed earlier l.
Proof.
  induction l as [|e l IH]; intros seen earlier Hse; simpl; [reflexivity|].
  unfold hash_of at 1. destruct (sha_truthy (entry_sha256 e)) as [h|] eqn:Eh.
  - assert (Hse' : forall h', same_hash h' e = String.eqb h' h).
    { intros h'. unfold same_hash, hash_of. rewrite Eh. reflexivity. }
    assert (Hraw : match entry_sha256 e with
                   | Some h0 => if String.eqb h0 EmptyString then None else Some h0
                   | None => None end = Some h) by exact Eh.
    destruct (entry_sha256 e) as [h0|]; [|discriminate].
    destruct (String.eqb h0 EmptyString); [discriminate|]. injection Hraw as ->.
    destruct (mem h processed) eqn:Hp; simpl.
    + apply IH. intros h' Hp'. rewrite existsb_same_hash_app, Hse'.
      destruct (String.eqb_spec h' h); [congruence|]. rewrite orb_false_r. auto.
    + rewrite <- (Hse h Hp). destruct (mem h seen) eqn:Hs; simpl.
      * apply IH. intros h' Hp'. rewrite existsb_same_hash_app, Hse'.
        destruct (String.eqb_spec h' h) as [->|]; [rewrite <- (Hse h Hp), Hs; reflexivity|].
        rewrite orb_false_r. auto.
      * f_equal. apply IH. intros h' Hp'. rewrite existsb_same_hash_app, Hse'. simpl.
        destruct (String.eqb_spec h' h); simpl; [rewrite orb_true_r; reflexivity|].
        rewrite orb_false_r. auto.
  - simpl. apply IH. intros h' Hp'. rewrite existsb_same_hash_app.
    unfold same_hash at 2, hash_of. rewrite Eh. rewrite orb_false_r. auto.
Qed.

Lemma filter_page_is_page_batch (processed : list string) (l : list hash_entry) :
  filter_page processed [] l = page_batch_spec processed [] l.
Proof. apply filter_page_spec_gen. intros h _. reflexivity. Qed.

Lemma coord_step_dedup_inv (init : list string) (max : option Z) (feed : nat -> page_fetch)
    (wenv : string -> worker_env) (c : Cfg) :
  dedup_inv init c -> dedup_inv init (coord_step max feed wenv c).
Proof.
  intros [Hnd [Hinit [Hproc Hpc_inv]]]. unfold coord_step.
  destruct (c_pc c) as [page|page todo|page|r] eqn:Hpc.
  - destruct (should_stop (c_st c)); [repeat split; auto; apply Hproc|].
    destruct (feed page) as [[|e recs]| |]; try (repeat split; auto; apply Hproc).
    destruct (filter_page (c_processed c) [] (e :: recs)) as [|b bs] eqn:Eb;
      (repeat split; auto; try apply Hproc).
    all: rewrite <- Eb.
    + apply filter_page_valid.
    + apply filter_page_props.
    + intros h Hh. apply (proj2 (filter_page_props (c_processed c) (e :: recs) []) h Hh).
  - destruct todo as [|e rest]; [repeat split; auto; apply Hproc|].
    destruct Hpc_inv as [Hval [Hndt Hnotp]].
    inversion Hval as [|? ? Hev Hrest]; subst.
    simpl in Hndt. inversion Hndt as [|? ? Hnin Hndr]; subst.
    assert (Hhp : ~ In (entry_hash e) (c_processed c)) by (apply Hnotp; left; reflexivity).
    destruct (try_admit_cases max (c_st c)) as [[Hs Ht]|[[Hs [Hm Ht]]|[Hs [Hm Ht]]]];
      rewrite Ht; simpl.
    + rewrite Hs. repeat split; auto; apply Hproc.
    + repeat split; auto; apply Hproc.
    + repeat split.
      * apply NoDup_app; [exact Hnd|constructor; [intros []|constructor]|].
        intros x Hx [<-|[]]. apply Hhp, Hproc. right. exact Hx.
      * intros h Hh Hin. apply in_app_or in Hin as [Hin|[<-|[]]].
        -- exact (Hinit h Hh Hin).
        -- apply Hhp, Hproc. left. exact Hh.
      * intros [<-|Hin]; [right; apply in_or_app; right; left; reflexivity|].
        apply Hproc in Hin as [Hin|Hin]; [left; exact Hin|right; apply in_or_app; left; exact Hin].
      * intros [Hin|Hin]; [right; apply Hproc; left; exact Hin|].
        apply in_app_or in Hin as [Hin|[<-|[]]]; [right; apply Hproc; right; exact Hin|left; reflexivity].
      * exact Hrest.
      * exact Hndr.
      * intros h Hh [<-|Hin]; [exact (Hnin Hh)|]. exact (Hnotp h (or_intror Hh) Hin).
  - destruct (forallb task_done (c_tasks c)); [|repeat split; auto; try apply Hproc; rewrite Hpc; exact I].
    destruct (should_stop (c_st c)); repeat split; auto; apply Hproc.
  - repeat split; auto; try apply Hproc. rewrite Hpc. exact I.
Qed.

Lemma work_step_dedup_inv (init : list string) (i : nat) (c : Cfg) :
  dedup_inv init c -> dedup_inv init (work_step i c).
Proof.
  unfold work_step. destruct (nth_error (c_tasks c) i) as [[|w rest]|]; auto.
Qed.

Lemma run_dedup_inv (init : list string) (max : option Z) (feed : nat -> page_fetch)
    (wenv : string -> worker_env) (ss : list sched) :
  forall c, dedup_inv init c -> dedup_inv init (run max feed wenv c ss).
Proof.
  induction ss as [|s ss IH]; intros c Hc; simpl; [exact Hc|].
  apply IH. destruct s; [apply coord_step_dedup_inv|apply work_step_dedup_inv]; exact Hc.
Qed.

Lemma initial_dedup_inv (max : option Z) (log : option (list string)) :
  dedup_inv (load_processed_hashes log) (initial_cfg max log).
Proof.
  unfold initial_cfg, dedup_inv. simpl. repeat split.
  - constructor.
  - intros h _ [].
  - intros H. left. exact H.
  - intros [H|[]]. exact H.
Qed.

(** C5: the batch the paginator submits from a page is exactly PageBatch
    (the records with a hash identifier, not in ProcessedSet, and not
    carrying the hash of an earlier record of the page); along every
    interleaving of a run, ProcessedSet is the hashes loaded from the log plus
    the hashes submitted so far, no hash is submitted twice (so a hash occurring
    twice in a page is admitted at most once) and no hash loaded from the
    durable log at startup is ever submitted. *)
Theorem page_batch_dedup (max : option Z) (feed : nat -> page_fetch)
    (wenv : string -> worker_env) (log : option (list string)) (ss : list sched) :
  let c := run max feed wenv (initial_cfg max log) ss in
  (forall page recs,
     c_pc c = CTop page -> should_stop (c_st c) = false -> feed page = PData recs -> recs <> [] ->
     c_pc (coord_step max feed wenv c) =
     match page_batch_spec (c_processed c) [] recs with
     | [] => CTop (S page)
     | b => CSubmit page b
     end) /\
  NoDup (c_submitted c) /\
  (forall h, In h (load_processed_hashes log) -> ~ In h (c_submitted c)) /\
  (forall h, In h (c_processed c) <-> In h (load_processed_hashes log) \/ In h (c_submitted c)).
Proof.
  destruct (run_dedup_inv _ max feed wenv ss _ (initial_dedup_inv max log))
    as [Hnd [Hinit [Hproc _]]].
  split; [|split; [exact Hnd|split; [exact Hinit|exact Hproc]]].
  intros page recs Hpc Hs Hf Hne. unfold coord_step. rewrite Hpc, Hs, Hf.
  destruct recs as [|e recs]; [contradiction|].
  rewrite <- filter_page_is_page_batch.
  destruct (filter_page _ [] (e :: recs)); reflexivity.
Qed.

Lemma page_batch_dedup_witness :
  c_pc (coord_step None (ex_feed [ex_entry "h"; ex_entry "h"]) ex_wenv_ok
          (run None (ex_feed [ex_entry "h"; ex_entry "h"]) ex_wenv_ok (initial_cfg None None) []))
  = CSubmit 1 [ex_entry "h"].
Proof.
  destruct (page_batch_dedup None (ex_feed [ex_entry "h"; ex_entry "h"]) ex_wenv_ok None [])
    as [H _].
  rewrite (H 1%nat [ex_entry "h"; ex_entry "h"] eq_refl eq_refl eq_refl ltac:(discriminate)).
  reflexivity.
Defined.

Lemma pending_never_negative_witness :
  pending_downloads_count
    (c_st (run (Some 2) (ex_feed [ex_entry "h"; ex_entry "g"]) ex_wenv_ok (initial_cfg (Some 2) None)
             [SCoord; SCoord; SCoord; SWork 0; SWork 1; SWork 0; SWork 1])) = 0.
Proof.
  destruct (pending_never_negative (Some 2) (ex_feed [ex_entry "h"; ex_entry "g"]) ex_wenv_ok None
              [SCoord; SCoord; SCoord; SWork 0; SWork 1; SWork 0; SWork 1]) as [_ [_ [_ H]]].
  apply H. vm_compute. reflexivity.
Defined.

(** ** A limit of zero *)

(** C6 (as amended): with an API key configured (not empty and not the
    placeholder), a creatable download directory and a processed log that is
    missing, unreadable or decodable, [MAX_DOWNLOAD = 0] sets [should_stop]
    before pagination: no page is requested, no task is ever submitted, and
    the report is produced from that state. Without an API key the run ends in
    [exit(1)] whatever the rest, with no report; with a key, a directory that
    cannot be created or a log that cannot be decoded ends the run with an
    exception before the limit is looked at, with no report. *)
Theorem zero_limit_no_admission (API_KEY : string) (makedirs_ok : bool) (log : log_file)
    (feed : nat -> page_fetch) (wenv : string -> worker_env) (ss : list sched) :
  (API_KEY <> EmptyString -> API_KEY <> "PUT_YOUR_METADEFENDER_API_KEY_HERE"%string ->
   makedirs_ok = true -> log <> LogUndecodable ->
   exists c, main API_KEY makedirs_ok (Some 0) log feed wenv ss = MReport c /\
     should_stop (c_st c) = true /\ c_fetched c = [] /\ c_submitted c = [] /\ c_tasks c = []) /\
  (API_KEY = EmptyString \/ API_KEY = "PUT_YOUR_METADEFENDER_API_KEY_HERE"%string ->
   main API_KEY makedirs_ok (Some 0) log feed wenv ss = MExit1) /\
  (API_KEY <> EmptyString -> API_KEY <> "PUT_YOUR_METADEFENDER_API_KEY_HERE"%string ->
   makedirs_ok = false \/ log = LogUndecodable ->
   main API_KEY makedirs_ok (Some 0) log feed wenv ss = MCrash).
Proof.
  unfold main. split; [|split].
  - intros Hkey Hplaceholder Hdir Hlog.
    destruct (String.eqb_spec API_KEY EmptyString); [contradiction|].
    destruct (String.eqb_spec API_KEY "PUT_YOUR_METADEFENDER_API_KEY_HERE"); [contradiction|].
    subst makedirs_ok. simpl.
    destruct log as [| | |lines]; [| |contradiction|]; simpl;
      eexists; repeat split; reflexivity.
  - intros [-> | ->]; reflexivity.
  - intros Hkey Hplaceholder Hfail.
    destruct (String.eqb_spec API_KEY EmptyString); [contradiction|].
    destruct (String.eqb_spec API_KEY "PUT_YOUR_METADEFENDER_API_KEY_HERE"); [contradiction|].
    simpl. destruct Hfail as [-> | ->]; [reflexivity|].
    destruct makedirs_ok; reflexivity.
Qed.

Lemma zero_limit_no_admission_witness :
  exists c, main "my-api-key" true (Some 0) (LogLines ["ab01"%string]) (ex_feed [ex_entry "h"])
                 ex_wenv_ok [SCoord] = MReport c /\
    should_stop (c_st c) = true /\ c_fetched c = [] /\ c_submitted c = [] /\ c_tasks c = [].
Proof.
  apply (proj1 (zero_limit_no_admission "my-api-key" true (LogLines ["ab01"%string])
                  (ex_feed [ex_entry "h"]) ex_wenv_ok [SCoord]));
    [discriminate|discriminate|reflexivity|discriminate].
Defined.

(** C6 refuted as stated: with the API key left empty, as the source ships
    it, the run ends in [exit(1)] before the limit is looked at, and no report
    is produced. *)
Lemma zero_limit_without_api_key_no_report :
  main EmptyString true (Some 0) LogMissing (ex_feed [ex_entry "h"]) ex_wenv_ok [] = MExit1.
Proof. reflexivity. Qed.

(** ** The limit invariant *)

(** C1 fails: with [MAX_DOWNLOAD = 1] and one record on the first page, once
    the worker's [downloaded_count += 1] has run and before its [finally]
    decrement, [downloaded_count + pending_downloads_count = 2 > 1]. *)
Lemma success_window_exceeds_limit :
  let c := run (Some 1) (ex_feed [ex_entry "h"]) ex_wenv_ok (initial_cfg (Some 1) None)
               [SCoord; SCoord; SWork 0] in
  downloaded_count (c_st c) = 1 /\ pending_downloads_count (c_st c) = 1 /\
  downloaded_count (c_st c) + pending_downloads_count (c_st c) = 2 /\
  c_tasks c = [[WDecPending]].
Proof. vm_compute. repeat split; reflexivity. Qed.

(** The double count stops admission early: with [MAX_DOWNLOAD = 2] and two
    new records on a page, the second record is refused while the first one's
    success is counted in both counters, the stop flag is set, and the run
    reports one download. *)
Lemma success_window_stops_admission_early :
  exists c,
    main "my-api-key" true (Some 2) LogMissing (ex_feed [ex_entry "h"; ex_entry "g"]) ex_wenv_ok
         [SCoord; SCoord; SWork 0; SCoord; SWork 0; SCoord] = MReport c /\
    downloaded_count (c_st c) = 1 /\ pending_downloads_count (c_st c) = 0 /\
    should_stop (c_st c) = true /\ c_submitted c = ["h"%string].
Proof. eexists. vm_compute. repeat split; reflexivity. Qed.

(** ** Further properties of the run *)

Lemma apply_wstep_should_stop (w : wstep) (s : St) :
  should_stop (apply_wstep w s) = should_stop s.
Proof. destruct w; simpl; try reflexivity. destruct (0 <? pending_downloads_count s); reflexivity. Qed.

Lemma sched_step_stopped (max : option Z) (feed : nat -> page_fetch) (wenv : string -> worker_env)
    (c : Cfg) (s : sched) :
  should_stop (c_st c) = true ->
  should_stop (c_st (sched_step max feed wenv c s)) = true /\
  c_submitted (sched_step max feed wenv c s) = c_submitted c /\
  c_fetched (sched_step max feed wenv c s) = c_fetched c.
Proof.
  intros Hs. destruct s as [|i]; simpl.
  - unfold coord_step. destruct (c_pc c) as [page|page [|e rest]|page|r]; simpl.
    + rewrite Hs. simpl. auto.
    + auto.
    + unfold try_admit. rewrite Hs. simpl. rewrite Hs. simpl. auto.
    + destruct (forallb task_done (c_tasks c)); [rewrite Hs|]; simpl; auto.
    + auto.
  - unfold work_step. destruct (nth_error (c_tasks c) i) as [[|w rest]|]; simpl; auto.
    rewrite apply_wstep_should_stop. auto.
Qed.

(** Once [should_stop] is set it stays set: from then on no further page is
    requested and no further task is submitted, whatever the interleaving. *)
Theorem stop_is_final (max : option Z) (feed : nat -> page_fetch) (wenv : string -> worker_env)
    (ss : list sched) :
  forall c, should_stop (c_st c) = true ->
  let c' := run max feed wenv c ss in
  should_stop (c_st c') = true /\ c_submitted c' = c_submitted c /\ c_fetched c' = c_fetched c.
Proof.
  induction ss as [|s ss IH]; intros c Hs; simpl; [auto|].
  destruct (sched_step_stopped max feed wenv c s Hs) as [H1 [H2 H3]].
  destruct (IH _ H1) as [G1 [G2 G3]]. rewrite G2, G3, H2, H3. auto.
Qed.

Lemma stop_is_final_witness :
  c_submitted (run (Some 5) (ex_feed [ex_entry "h"]) ex_wenv_ok (initial_cfg (Some 0) None)
                   [SCoord; SCoord; SCoord]) = [].
Proof.
  destruct (stop_is_final (Some 5) (ex_feed [ex_entry "h"]) ex_wenv_ok [SCoord; SCoord; SCoord]
              (initial_cfg (Some 0) None) eq_refl) as [_ [H _]].
  exact H.
Defined.

Lemma unlimited_step (feed : nat -> page_fetch) (wenv : string -> worker_env) (c : Cfg) (s : sched) :
  should_stop (c_st c) = false -> c_pc c <> CDone RStopFlag ->
  should_stop (c_st (sched_step None feed wenv c s)) = false /\
  c_pc (sched_step None feed wenv c s) <> CDone RStopFlag.
Proof.
  intros Hs Hpc. destruct s as [|i]; simpl.
  - unfold coord_step. destruct (c_pc c) as [page|page [|e rest]|page|r] eqn:Hp.
    + rewrite Hs. destruct (feed page) as [[|e recs]| |];
        [| destruct (filter_page (c_processed c) [] (e :: recs)) | |];
        split; (exact Hs || discriminate).
    + split; [exact Hs|discriminate].
    + unfold try_admit. rewrite Hs. simpl. split; [reflexivity|discriminate].
    + destruct (forallb task_done (c_tasks c)); [rewrite Hs|];
        (split; [exact Hs|]); [discriminate|simpl; rewrite Hp; discriminate].
    + split; [exact Hs|rewrite Hp; exact Hpc].
  - unfold work_step. destruct (nth_error (c_tasks c) i) as [[|w rest]|]; simpl; auto.
    rewrite apply_wstep_should_stop. auto.
Qed.

(** Without a limit ([MAX_DOWNLOAD = None]) the stop flag is never set, so the
    run never ends on it: it can only end on an empty page, a feed error or an
    exception. *)
Theorem unlimited_never_stops_on_flag (feed : nat -> page_fetch) (wenv : string -> worker_env)
    (log : option (list string)) (ss : list sched) :
  let c := run None feed wenv (initial_cfg None log) ss in
  should_stop (c_st c) = false /\ c_pc c <> CDone RStopFlag.
Proof.
  assert (H : forall c, should_stop (c_st c) = false -> c_pc c <> CDone RStopFlag ->
              let c' := run None feed wenv c ss in
              should_stop (c_st c') = false /\ c_pc c' <> CDone RStopFlag).
  { induction ss as [|s ss IH]; intros c Hs Hpc; simpl; [auto|].
    destruct (unlimited_step feed wenv c s Hs Hpc) as [H1 H2]. apply IH; assumption. }
  apply H; [reflexivity|discriminate].
Qed.

Lemma all_done_nth (ts : list (list wstep)) (i : nat) (w : wstep) (rest : list wstep) :
  forallb task_done ts = true -> nth_error ts i <> Some (w :: rest).
Proof.
  intros Hall Hn. apply nth_error_In in Hn. rewrite forallb_forall in Hall.
  specialize (Hall _ Hn). discriminate.
Qed.

Lemma sched_step_order_inv (max : option Z) (feed : nat -> page_fetch) (wenv : string -> worker_env)
    (c : Cfg) (s : sched) :
  order_inv c -> order_inv (sched_step max feed wenv c s).
Proof.
  intros [Hseq Hpc]. destruct s as [|i]; simpl.
  - unfold coord_step. destruct (c_pc c) as [page|page [|e rest]|page|r] eqn:Hp.
    + destruct Hpc as [Hpage Hall].
      assert (Hseq' : c_fetched c ++ [page] = seq 1 (List.length (c_fetched c ++ [page]))).
      { rewrite length_app, Nat.add_1_r, seq_S, <- Hseq, Hpage. reflexivity. }
      destruct (should_stop (c_st c)); [split; [exact Hseq|exact I]|].
      destruct (feed page) as [[|e recs]| |];
        [| destruct (filter_page (c_processed c) [] (e :: recs)) | |];
        (split; [exact Hseq'|]); simpl; try exact I; rewrite ?length_app; simpl; try lia.
      split; [lia|exact Hall].
    + split; [exact Hseq|exact Hpc].
    + destruct (try_admit max (c_st c)) as [b s'].
      destruct (should_stop s'); [|destruct b]; (split; [exact Hseq|exact Hpc]).
    + destruct (forallb task_done (c_tasks c)) eqn:Hall; [|split; [exact Hseq|rewrite Hp; exact Hpc]].
      destruct (should_stop (c_st c)); (split; [exact Hseq|]); simpl; [exact I|].
      split; [lia|exact Hall].
    + split; [exact Hseq|rewrite Hp; exact Hpc].
  - unfold work_step. destruct (nth_error (c_tasks c) i) as [[|w rest]|] eqn:Hn;
      try (split; assumption).
    split; [exact Hseq|]. simpl.
    destruct (c_pc c) as [page|page todo|page|r] eqn:Hp; try exact Hpc.
    exfalso. exact (all_done_nth _ _ _ _ (proj2 Hpc) Hn).
Qed.

(** In every interleaving the coordinator requests pages 1, 2, 3, ... in
    order, each once, and whenever it is about to request a page every task
    submitted so far has finished (the [as_completed] barrier). *)
Theorem pages_in_order_with_barrier (max : option Z) (feed : nat -> page_fetch)
    (wenv : string -> worker_env) (log : option (list string)) (ss : list sched) :
  let c := run max feed wenv (initial_cfg max log) ss in
  c_fetched c = seq 1 (List.length (c_fetched c)) /\
  forall p, c_pc c = CTop p -> p = S (List.length (c_fetched c)) /\ forallb task_done (c_tasks c) = true.
Proof.
  assert (H : forall c, order_inv c -> order_inv (run max feed wenv c ss)).
  { induction ss as [|s ss IH]; intros c Hc; simpl; [exact Hc|].
    apply IH. apply sched_step_order_inv. exact Hc. }
  destruct (H (initial_cfg max log)) as [Hseq Hpc].
  - split; [reflexivity|]. simpl. split; reflexivity.
  - simpl. split; [exact Hseq|]. intros p Hp. rewrite Hp in Hpc. exact Hpc.
Qed.

Lemma dl_loop_steps_short (fuel attempt : nat) (env : nat -> dl_attempt) (file : option Z) fails :
  dl_steps (dl_loop fuel attempt env file fails) = [] \/
  exists w, w <> WDecPending /\ dl_steps (dl_loop fuel attempt env file fails) = [w].
Proof.
  revert attempt file fails. induction fuel as [|fuel IH]; intros attempt file fails; simpl; [auto|].
  destruct (env attempt); simpl.
  - right. exists WIncDownloaded. split; [discriminate|reflexivity].
  - destruct (attempt <? MAX_RETRIES)%nat; [apply IH|].
    right. exists WIncFailed. split; [discriminate|reflexivity].
  - auto.
Qed.

Lemma worker_dl_shape (h : string) (env : worker_env) :
  h <> EmptyString -> dl_shape (w_steps (process_hash_entry (Some h) env)).
Proof.
  intros Hh. unfold process_hash_entry. rewrite sha_truthy_some by exact Hh.
  destruct (get_download_link (we_link env)) as [[v|] nl]; simpl; [|right; left; reflexivity].
  destruct (truthy v); simpl; [|right; left; reflexivity].
  assert (Hd : dl_steps (download_file (we_file env) (we_dl env)) = [] \/
               exists w, w <> WDecPending /\ dl_steps (download_file (we_file env) (we_dl env)) = [w]).
  { unfold download_file. destruct (we_file env).
    - right. exists WIncSkippedExisting. split; [discriminate|reflexivity].
    - apply dl_loop_steps_short. }
  destruct Hd as [-> | [w [Hw ->]]]; simpl.
  - right; left; reflexivity.
  - right; right; eauto.
Qed.

Lemma to_succeed_le_in_flight (ts : list (list wstep)) :
  Forall dl_shape ts -> (to_succeed ts <= in_flight ts)%nat.
Proof.
  unfold to_succeed, in_flight. induction ts as [|t ts IH]; intros Hall; simpl; [lia|].
  inversion Hall as [|? ? Ht Hts]; subst. specialize (IH Hts).
  unfold has_inc_dl at 1, has_dec at 1.
  destruct Ht as [-> | [-> | [w [Hw ->]]]]; simpl; [lia|lia|].
  destruct (is_inc_dl w), (is_dec w); simpl; lia.
Qed.

Lemma to_succeed_app (ts : list (list wstep)) (t : list wstep) :
  to_succeed (ts ++ [t]) = (to_succeed ts + (if has_inc_dl t then 1 else 0))%nat.
Proof.
  unfold to_succeed. rewrite filter_app, length_app. simpl. destruct (has_inc_dl t); reflexivity.
Qed.

Lemma to_succeed_upd (ts : list (list wstep)) (i : nat) (t t' : list wstep) :
  nth_error ts i = Some t ->
  (to_succeed (upd_nth i t' ts) + (if has_inc_dl t then 1 else 0) =
   to_succeed ts + (if has_inc_dl t' then 1 else 0))%nat.
Proof.
  unfold to_succeed. revert i. induction ts as [|x ts IH]; intros [|i] Hn; simpl in *; try discriminate.
  - injection Hn as ->. destruct (has_inc_dl t), (has_inc_dl t'); simpl; lia.
  - specialize (IH i Hn). destruct (has_inc_dl x); simpl; lia.
Qed.

Lemma sched_step_limit_inv (m : Z) (feed : nat -> page_fetch) (wenv : string -> worker_env)
    (c : Cfg) (s : sched) :
  pending_inv c -> limit_inv m c -> limit_inv m (sched_step (Some m) feed wenv c s).
Proof.
  intros [Hscr [Hpend Htodo]] [Hshape Hle]. destruct s as [|i]; simpl.
  - unfold coord_step. destruct (c_pc c) as [page|page [|e rest]|page|r] eqn:Hpc.
    + destruct (should_stop (c_st c)); [split; assumption|].
      destruct (feed page) as [[|e recs]| |];
        [| destruct (filter_page (c_processed c) [] (e :: recs)) | |]; split; assumption.
    + split; assumption.
    + simpl in Htodo. inversion Htodo as [|? ? [h [Eh Hh]] Hrest]; subst.
      destruct (try_admit_cases (Some m) (c_st c)) as [[Hs Ht]|[[Hs [Hm Ht]]|[Hs [Hm Ht]]]];
        rewrite Ht; simpl.
      * rewrite Hs. split; assumption.
      * split; assumption.
      * destruct Hm as [Hm|[m' [Hm Hlt]]]; [discriminate|]. injection Hm as <-.
        unfold entry_hash. rewrite Eh. split; simpl.
        -- apply Forall_app. split; [assumption|constructor; [apply worker_dl_shape; exact Hh|constructor]].
        -- rewrite to_succeed_app. pose proof (to_succeed_le_in_flight _ Hshape).
           destruct (has_inc_dl _); lia.
    + destruct (forallb task_done (c_tasks c)); [destruct (should_stop (c_st c))|]; split; assumption.
    + split; assumption.
  - unfold work_step. destruct (nth_error (c_tasks c) i) as [[|w rest]|] eqn:Hn; try (split; assumption).
    assert (Ht : dl_shape (w :: rest)).
    { eapply Forall_forall; [exact Hshape|]. eapply nth_error_In. exact Hn. }
    pose proof (to_succeed_upd (c_tasks c) i (w :: rest) rest Hn) as Hcnt.
    destruct Ht as [Ht | [Ht | [w0 [Hw0 Ht]]]]; [discriminate| |].
    + injection Ht as -> ->. split; simpl.
      * apply Forall_upd; [exact Hshape|left; reflexivity].
      * unfold has_inc_dl in Hcnt. simpl in Hcnt.
        destruct (0 <? pending_downloads_count (c_st c)); simpl; lia.
    + injection Ht as -> ->. split; simpl.
      * apply Forall_upd; [exact Hshape|right; left; reflexivity].
      * unfold has_inc_dl in Hcnt. simpl in Hcnt.
        destruct w0; simpl in Hcnt |- *; [lia|lia|lia|congruence].
Qed.

(** With a limit [MAX_DOWNLOAD = Some m], [downloaded_count] never exceeds
    [m] (or 0 when [m] is negative) along any interleaving of a run: each
    success was reserved by an admission made while
    [downloaded_count + pending_downloads_count < m]. *)
Theorem downloaded_within_limit (m : Z) (feed : nat -> page_fetch) (wenv : string -> worker_env)
    (log : option (list string)) (ss : list sched) :
  downloaded_count (c_st (run (Some m) feed wenv (initial_cfg (Some m) log) ss)) <= Z.max 0 m.
Proof.
  assert (H : forall c, pending_inv c -> limit_inv m c -> limit_inv m (run (Some m) feed wenv c ss)).
  { induction ss as [|s ss IH]; intros c Hp Hl; simpl; [exact Hl|].
    apply IH; [destruct s; [apply coord_step_pending_inv|apply work_step_pending_inv]; exact Hp|].
    apply sched_step_limit_inv; assumption. }
  destruct (H (initial_cfg (Some m) log) (initial_pending_inv _ _)) as [_ Hle].
  - split; [constructor|]. unfold initial_cfg. destruct m; simpl; lia.
  - pose proof (Nat2Z.is_nonneg (to_succeed (c_tasks (run (Some m) feed wenv (initial_cfg (Some m) log) ss)))).
    lia.
Qed.

(** ** Further properties of a task and of a page fetch *)

Lemma dl_loop_outcome (fuel attempt : nat) (env : nat -> dl_attempt) (file : option Z) fails :
  let d := dl_loop fuel attempt env file fails in
  (dl_ret_of d = DlTrue /\ dl_steps d = [WIncDownloaded] /\ dl_file d <> None) \/
  (dl_ret_of d <> DlTrue /\ ~ In WIncDownloaded (dl_steps d) /\ ~ In WIncSkippedExisting (dl_steps d)).
Proof.
  revert attempt file fails. induction fuel as [|fuel IH]; intros attempt file fails; simpl.
  - right. split; [discriminate|tauto].
  - destruct (env attempt); simpl.
    + left. split; [reflexivity|split; [reflexivity|discriminate]].
    + destruct (attempt <? MAX_RETRIES)%nat; [apply IH|].
      right. simpl. split; [discriminate|split; intros [H|H]; (discriminate || exact H)].
    + right. split; [discriminate|tauto].
Qed.

(** [save_processed_hash] is called exactly when the task counts the hash as
    downloaded or as already present, and then the file is present: the log
    never records a hash whose file is missing at the end of its task. *)
Theorem saved_iff_success_and_file_present (sha : option string) (env : worker_env) :
  let r := process_hash_entry sha env in
  (w_saved r = true <-> In WIncDownloaded (w_steps r) \/ In WIncSkippedExisting (w_steps r)) /\
  (w_saved r = true -> w_file r <> None).
Proof.
  unfold process_hash_entry. destruct (sha_truthy sha) as [h|]; simpl;
    [|split; [split; [discriminate|intros [[]|[]]]|discriminate]].
  destruct (get_download_link (we_link env)) as [[v|] nl]; simpl;
    [|split; [split; [discriminate|intros [[H|[]]|[H|[]]]; discriminate]|discriminate]].
  destruct (truthy v); simpl;
    [|split; [split; [discriminate|intros [[H|[]]|[H|[]]]; discriminate]|discriminate]].
  unfold download_file. destruct (we_file env) as [z|].
  - simpl. split; [split; [intros _; right; left; reflexivity|reflexivity]|discriminate].
  - pose proof (dl_loop_outcome (S MAX_RETRIES) 0 (we_dl env) None []) as Ho. cbv zeta in Ho.
    remember (dl_loop (S MAX_RETRIES) 0 (we_dl env) None []) as d. clear Heqd. simpl.
    destruct Ho as [[Hr [Hs Hf]]|[Hr [Hd Hk]]].
    + rewrite Hr, Hs. simpl. split; [split; [intros _; left; left; reflexivity|reflexivity]|intros _; exact Hf].
    + destruct (dl_ret_of _); [contradiction| |]; split; try discriminate;
        split; try discriminate; intros [H|H]; apply in_app_or in H as [H|[H|[]]];
        solve [contradiction | discriminate].
Qed.

Lemma link_loop_bound (fuel attempt : nat) (env : nat -> link_attempt) :
  (snd (link_loop fuel attempt env) <= attempt + fuel)%nat.
Proof.
  revert attempt. induction fuel as [|fuel IH]; intros attempt; simpl; [lia|].
  destruct (env attempt) as [|status body]; [destruct (attempt <? MAX_RETRIES)%nat; simpl; [specialize (IH (S attempt)); lia|lia]|].
  destruct (status =? 404); simpl; [lia|].
  destruct (http_error_status status);
    [destruct (attempt <? MAX_RETRIES)%nat; simpl; [specialize (IH (S attempt)); lia|lia]|].
  destruct body as [[]|]; simpl; try lia.
  destruct (attempt <? MAX_RETRIES)%nat; simpl; [specialize (IH (S attempt)); lia|lia].
Qed.

Lemma dl_loop_bound (fuel attempt : nat) (env : nat -> dl_attempt) (file : option Z) fails :
  (dl_attempts (dl_loop fuel attempt env file fails) <= attempt + fuel)%nat.
Proof.
  revert attempt file fails. induction fuel as [|fuel IH]; intros attempt file fails; simpl; [lia|].
  destruct (env attempt); simpl; [lia| |lia].
  destruct (attempt <? MAX_RETRIES)%nat; simpl; [|lia].
  match goal with |- (dl_attempts (dl_loop fuel (S attempt) env ?f ?fs) <= _)%nat =>
    specialize (IH (S attempt) f fs) end. lia.
Qed.

Lemma feed_loop_bound (fuel attempt : nat) (env : nat -> feed_attempt) :
  (0 < fuel)%nat ->
  (attempt < fr_requests (feed_loop fuel attempt env) <= attempt + fuel)%nat.
Proof.
  revert attempt. induction fuel as [|fuel IH]; intros attempt Hf; [lia|]. simpl.
  assert (Hrec : (attempt < fr_requests (if (attempt <? MAX_RETRIES)%nat then feed_loop fuel (S attempt) env
                   else mkFeed FNone (S attempt) [FeRequestFailed]) <= attempt + S fuel)%nat).
  { destruct (attempt <? MAX_RETRIES)%nat eqn:Ha; simpl; [|lia].
    destruct fuel as [|fuel']; [simpl; lia|].
    specialize (IH (S attempt) ltac:(lia)). lia. }
  destruct (env attempt) as [|status body]; [exact Hrec|].
  destruct (http_error_status status); [exact Hrec|].
  destruct (decode_page body); simpl; lia.
Qed.

(** Every retry loop is bounded: a task makes at most [MAX_RETRIES + 1] link
    requests and at most [MAX_RETRIES + 1] byte-fetch requests, and a page
    fetch makes between 1 and [MAX_RETRIES + 1] requests. *)
Theorem requests_bounded (sha : option string) (wenv : worker_env) (fenv : nat -> feed_attempt) :
  (w_link_attempts (process_hash_entry sha wenv) <= S MAX_RETRIES)%nat /\
  (w_fetch_attempts (process_hash_entry sha wenv) <= S MAX_RETRIES)%nat /\
  (1 <= fr_requests (fetch_hashes_page fenv) <= S MAX_RETRIES)%nat.
Proof.
  split; [|split].
  - unfold process_hash_entry. destruct (sha_truthy sha); simpl; [|lia].
    pose proof (link_loop_bound (S MAX_RETRIES) 0 (we_link wenv)) as Hb.
    unfold get_download_link. destruct (link_loop (S MAX_RETRIES) 0 (we_link wenv)) as [[v|] nl].
    + simpl in Hb |- *. destruct (truthy v); simpl; lia.
    + simpl in *. lia.
  - unfold process_hash_entry. destruct (sha_truthy sha); simpl; [|lia].
    destruct (get_download_link (we_link wenv)) as [[v|] nl]; simpl; [|lia].
    destruct (truthy v); simpl; [|lia].
    unfold download_file. destruct (we_file wenv); [simpl; lia|].
    pose proof (dl_loop_bound (S MAX_RETRIES) 0 (we_dl wenv) None []). lia.
  - unfold fetch_hashes_page. pose proof (feed_loop_bound (S MAX_RETRIES) 0 fenv ltac:(lia)). lia.
Qed.

(** A task with a hash runs its [finally] decrement once and records at most
    one outcome: it adds at most 1 in total to [downloaded_count],
    [failed_count] and [skipped_existing_count], never lowers them, and leaves
    [should_stop] alone. *)
Theorem task_records_at_most_one_outcome (h : string) (env : worker_env) (s : St)
    (Hh : h <> EmptyString) (Hp : 0 < pending_downloads_count s) :
  let s' := apply_wsteps (w_steps (process_hash_entry (Some h) env)) s in
  pending_downloads_count s' = pending_downloads_count s - 1 /\
  should_stop s' = should_stop s /\
  downloaded_count s <= downloaded_count s' /\ failed_count s <= failed_count s' /\
  skipped_existing_count s <= skipped_existing_count s' /\
  (downloaded_count s' - downloaded_count s) + (failed_count s' - failed_count s) +
  (skipped_existing_count s' - skipped_existing_count s) <= 1.
Proof.
  pose proof (worker_script_ok h env Hh) as [_ Hdec].
  destruct (worker_dl_shape h env Hh) as [Ht|[Ht|[w [Hw Ht]]]]; rewrite Ht in *.
  - discriminate.
  - rewrite apply_dec by exact Hp. simpl. repeat split; lia.
  - unfold apply_wsteps. simpl. apply Z.ltb_lt in Hp as Hp'.
    destruct w; simpl; try congruence; rewrite Hp'; simpl; repeat split; lia.
Qed.

Lemma task_records_at_most_one_outcome_witness :
  "h"%string <> EmptyString /\ 0 < pending_downloads_count (mkSt 0 1 0 0 false) /\
  pending_downloads_count (apply_wsteps (w_steps (process_hash_entry (Some "h"%string) (ex_wenv_ok "h")))
                                        (mkSt 0 1 0 0 false)) = 0.
Proof.
  split; [discriminate|split; [simpl; lia|]].
  destruct (task_records_at_most_one_outcome "h" (ex_wenv_ok "h") (mkSt 0 1 0 0 false)
              ltac:(discriminate) ltac:(simpl; lia)) as [H _].
  rewrite H. reflexivity.
Defined.

(** A hash whose link requests all fail with requests exceptions, retried
    HTTP errors or bodies that are not JSON is given up after [MAX_RETRIES + 1] link requests: no byte
    fetch, nothing saved, no outcome counter changed (it is not counted in
    [failed_count]); the task only runs its [finally] decrement. *)
Theorem link_exhausted_task_not_counted (h : string) (env : worker_env)
    (Hh : h <> EmptyString)
    (Htr : forall j, (j <= MAX_RETRIES)%nat -> link_transient (we_link env j)) :
  process_hash_entry (Some h) env = mkW [WDecPending] (S MAX_RETRIES) 0 (we_file env) false [].
Proof.
  unfold process_hash_entry. rewrite sha_truthy_some by exact Hh.
  assert (Hl : get_download_link (we_link env) = (LRet JNull, S MAX_RETRIES)).
  { unfold get_download_link.
    replace (S MAX_RETRIES) with (MAX_RETRIES + 1)%nat at 1 by lia.
    rewrite (link_loop_skip (we_link env) MAX_RETRIES 1 0); [|lia|intros; apply Htr; lia].
    simpl. destruct (Htr MAX_RETRIES ltac:(lia)) as [->|[status [body [-> [H404 [Herr| ->]]]]]];
      [reflexivity| |].
    - apply Z.eqb_neq in H404. rewrite H404, Herr. reflexivity.
    - apply Z.eqb_neq in H404. rewrite H404. destruct (http_error_status status); reflexivity. }
  rewrite Hl. reflexivity.
Qed.

Lemma link_exhausted_task_not_counted_witness :
  process_hash_entry (Some "h"%string) (mkWEnv (fun _ => LkReqErr) None (fun _ => DlOk [1]))
  = mkW [WDecPending] 4 0 None false [].
Proof.
  apply (link_exhausted_task_not_counted "h" (mkWEnv (fun _ => LkReqErr) None (fun _ => DlOk [1])));
    [discriminate|intros; left; reflexivity].
Defined.



(** ** The processed log round trip *)
























(** ** Statistics *)

Section DictProps.

Context {K V : Type} (eqb : K -> K -> bool).
Hypothesis eqb_spec : forall a b, eqb a b = true <-> a = b.

Lemma dict_get_set (d : list (K * V)) (k k' : K) (v : V) :
  dict_get eqb (dict_set eqb d k v) k' = if eqb k k' then Some v else dict_get eqb d k'.
Proof.
  induction d as [|[k0 v0] r IH]; simpl; [destruct (eqb k k'); reflexivity|].
  destruct (eqb k0 k) eqn:E0; simpl.
  - apply eqb_spec in E0. subst k0. destruct (eqb k k'); reflexivity.
  - rewrite IH. destruct (eqb k0 k') eqn:E1, (eqb k k') eqn:E2; try reflexivity.
    apply eqb_spec in E1. apply eqb_spec in E2. subst. rewrite (proj2 (eqb_spec k' k') eq_refl) in E0.
    discriminate.
Qed.

End DictProps.

Lemma update_statistics_counts (c : stat_call) (x : Stats) (s : St) :
  http_status_counts (fst (update_statistics c x s)) = update_http c (http_status_counts x) /\
  error_counts (fst (update_statistics c x s)) = update_errors c (error_counts x).
Proof.
  unfold update_statistics.
  destruct (_ && _); [destruct (download_time c) as [t|]; [destruct (Qle_bool t 0)|]|
                      destruct (match error_type c with Some e => _ | None => false end)];
    split; reflexivity.
Qed.


Lemma update_http_get (c : stat_call) (d : list (Z * Z)) (k : Z) :
  dict_get_or Z.eqb (update_http c d) k 0 = dict_get_or Z.eqb d k 0 + status_count [c] k.
Proof.
  unfold update_http, status_count. destruct (status_code c) as [code|]; simpl; [|lia].
  destruct (code =? 0) eqn:E0; simpl; [lia|].
  unfold dict_get_or at 1. rewrite (dict_get_set Z.eqb Z.eqb_eq).
  destruct (Z.eqb_spec code k); simpl; [subst; lia|unfold dict_get_or; lia].
Qed.

Lemma update_errors_get (c : stat_call) (d : list (string * Z)) (e : string) :
  dict_get_or String.eqb (update_errors c d) e 0 = dict_get_or String.eqb d e 0 + error_count [c] e.
Proof.
  unfold update_errors, error_count. destruct (error_type c) as [e'|]; simpl; [|lia].
  destruct (String.eqb e' EmptyString) eqn:E0; simpl; [lia|].
  unfold dict_get_or at 1. rewrite (dict_get_set String.eqb String.eqb_eq).
  destruct (String.eqb_spec e' e); simpl; [subst; lia|unfold dict_get_or; lia].
Qed.

Lemma apply_stats_counts (calls : list stat_call) :
  forall (x : Stats) (s : St) (k : Z) (e : string),
  dict_get_or Z.eqb (http_status_counts (fst (apply_stats calls x s))) k 0 =
    dict_get_or Z.eqb (http_status_counts x) k 0 + status_count calls k /\
  dict_get_or String.eqb (error_counts (fst (apply_stats calls x s))) e 0 =
    dict_get_or String.eqb (error_counts x) e 0 + error_count calls e.
Proof.
  induction calls as [|c calls IH]; intros x s k e; [simpl; lia|].
  unfold apply_stats in *. cbn [fold_left fst snd].
  rewrite (surjective_pairing (update_statistics c x s)).
  destruct (IH (fst (update_statistics c x s)) (snd (update_statistics c x s)) k e) as [H1 H2].
  rewrite H1, H2. destruct (update_statistics_counts c x s) as [-> ->].
  rewrite update_http_get, update_errors_get. simpl. lia.
Qed.

(** Whatever the sequence of [update_statistics] calls, [http_status_counts[k]]
    grows by exactly the number of calls whose [status_code] is [k] (a status
    code of 0 or [None] is not counted), and [error_counts[e]] by exactly the
    number of calls whose [error_type] is [e] (an empty one is not counted). *)
Theorem statistics_count_calls (calls : list stat_call) :
  forall (x : Stats) (s : St) (k : Z) (e : string),
  dict_get_or Z.eqb (http_status_counts (fst (apply_stats calls x s))) k 0 =
    dict_get_or Z.eqb (http_status_counts x) k 0 + status_count calls k /\
  dict_get_or String.eqb (error_counts (fst (apply_stats calls x s))) e 0 =
    dict_get_or String.eqb (error_counts x) e 0 + error_count calls e.
Proof. exact (apply_stats_counts calls). Qed.

Lemma status_count_app (l1 l2 : list stat_call) (k : Z) :
  status_count (l1 ++ l2) k = status_count l1 k + status_count l2 k.
Proof. induction l1 as [|c l1 IH]; simpl; [reflexivity|rewrite IH; lia]. Qed.

Lemma status_count_twice (st : nat -> Z) (l : list nat) (k : Z) :
  (forall i, In i l -> st i <> 0) ->
  status_count (flat_map (fun i => [call_status (st i); call_status (st i)]) l) k =
  2 * Z.of_nat (count_occ Z.eq_dec (map st l) k).
Proof.
  induction l as [|i l IH]; intros Hnz; [reflexivity|].
  assert (Hi : (st i =? 0) = false) by (apply Z.eqb_neq; apply Hnz; left; reflexivity).
  change (flat_map _ (i :: l)) with
    ([call_status (st i); call_status (st i)] ++ flat_map (fun i => [call_status (st i); call_status (st i)]) l).
  rewrite status_count_app, IH by (intros; apply Hnz; right; assumption).
  cbn [status_count call_status status_code map count_occ]. rewrite Hi. cbn [orb].
  destruct (Z.eqb_spec (st i) k), (Z.eq_dec (st i) k); try contradiction; cbn [negb]; lia.
Qed.

Lemma http_error_nonzero (status : Z) : http_error_status status = true -> status <> 0.
Proof.
  unfold http_error_status. intros H. apply andb_true_iff in H as [H _]. apply Z.leb_le in H. lia.
Qed.

(** When every request for a feed page is answered with an HTTP error status,
    each of those responses is counted twice in [http_status_counts] (once
    after [requests.get], once more in the [RequestException] handler raised
    by [raise_for_status]), so the report's HTTP summary shows
    [2 * (MAX_RETRIES + 1)] for a page that got [MAX_RETRIES + 1] responses. *)
Theorem feed_error_status_counted_twice (page : nat) (env : nat -> feed_attempt)
    (st : nat -> Z) (b : nat -> option json)
    (Henv : forall i, (i <= MAX_RETRIES)%nat -> env i = FResp (st i) (b i) /\ http_error_status (st i) = true) :
  fetch_hashes_page_stats page env =
    flat_map (fun i => [call_status (st i); call_status (st i)]) (seq 0 (S MAX_RETRIES)) ++
    [call_error (feed_failed_key page)] /\
  (forall k, status_count (fetch_hashes_page_stats page env) k =
             2 * Z.of_nat (count_occ Z.eq_dec (map st (seq 0 (S MAX_RETRIES))) k)).
Proof.
  assert (Hl : fetch_hashes_page_stats page env =
    flat_map (fun i => [call_status (st i); call_status (st i)]) (seq 0 (S MAX_RETRIES)) ++
    [call_error (feed_failed_key page)]).
  { destruct (Henv 0%nat ltac:(unfold MAX_RETRIES; lia)) as [E0 H0].
    destruct (Henv 1%nat ltac:(unfold MAX_RETRIES; lia)) as [E1 H1].
    destruct (Henv 2%nat ltac:(unfold MAX_RETRIES; lia)) as [E2 H2].
    destruct (Henv 3%nat ltac:(unfold MAX_RETRIES; lia)) as [E3 H3].
    unfold fetch_hashes_page_stats. simpl. rewrite E0, E1, E2, E3, H0, H1, H2, H3. reflexivity. }
  split; [exact Hl|]. intros k. rewrite Hl, status_count_app, status_count_twice.
  - simpl. lia.
  - intros i Hi. apply in_seq in Hi. apply http_error_nonzero. apply (Henv i). lia.
Qed.

Lemma feed_error_status_counted_twice_witness :
  status_count (fetch_hashes_page_stats 7 (fun _ => FResp 503 None)) 503 = 8.
Proof.
  destruct (feed_error_status_counted_twice 7 (fun _ => FResp 503 None) (fun _ => 503) (fun _ => None))
    as [_ H]; [intros; split; reflexivity|].
  rewrite H. reflexivity.
Defined.

(** When a feed request is answered with an HTTP error status and every later
    request raises a requests exception, the handler re-counts the status of
    that earlier, still stored response at each later attempt: one response
    is counted [MAX_RETRIES + 2] times in [http_status_counts]. *)
Theorem feed_stale_status_recounted (page : nat) (env : nat -> feed_attempt) (st0 : Z) (b0 : option json)
    (H0 : env 0%nat = FResp st0 b0) (Herr : http_error_status st0 = true)
    (Hrest : forall i, (1 <= i <= MAX_RETRIES)%nat -> env i = FReqErr) :
  fetch_hashes_page_stats page env =
    repeat (call_status st0) (S (S MAX_RETRIES)) ++ [call_error (feed_failed_key page)] /\
  status_count (fetch_hashes_page_stats page env) st0 = Z.of_nat (S (S MAX_RETRIES)).
Proof.
  assert (Hl : fetch_hashes_page_stats page env =
    repeat (call_status st0) (S (S MAX_RETRIES)) ++ [call_error (feed_failed_key page)]).
  { unfold fetch_hashes_page_stats. simpl.
    rewrite H0, Herr, (Hrest 1%nat), (Hrest 2%nat), (Hrest 3%nat) by (unfold MAX_RETRIES; lia).
    reflexivity. }
  split; [exact Hl|]. rewrite Hl. apply http_error_nonzero in Herr. apply Z.eqb_neq in Herr.
  simpl. rewrite Herr, Z.eqb_refl. reflexivity.
Qed.

Lemma feed_stale_status_recounted_witness :
  status_count (fetch_hashes_page_stats 2 (fun i => match i with O => FResp 500 None | _ => FReqErr end)) 500 = 5.
Proof.
  destruct (feed_stale_status_recounted 2 (fun i => match i with O => FResp 500 None | _ => FReqErr end) 500 None
              eq_refl eq_refl) as [_ H].
  - intros [|i] Hi; [lia|reflexivity].
  - rewrite H. reflexivity.
Defined.



(** [download_file]'s call for an already present file,
    [update_statistics(error_type="Skipped Existing")], increments
    [skipped_existing_count] exactly as the counter step
    [WIncSkippedExisting], and also counts ["Skipped Existing"] in
    [error_counts], so every already present file is listed in the report's
    error summary as well. *)
Theorem skipped_existing_statistics (x : Stats) (s : St) :
  snd (update_statistics (call_error "Skipped Existing") x s) = apply_wstep WIncSkippedExisting s /\
  dict_get_or String.eqb (error_counts (fst (update_statistics (call_error "Skipped Existing") x s)))
              "Skipped Existing"%string 0 =
  dict_get_or String.eqb (error_counts x) "Skipped Existing"%string 0 + 1.
Proof.
  split; [reflexivity|].
  rewrite (proj2 (update_statistics_counts _ x s)), update_errors_get. reflexivity.
Qed.

(** [update_statistics] never touches the admission counters: whatever calls
    are made, [downloaded_count], [pending_downloads_count], [failed_count] and
    [should_stop] are unchanged, and [skipped_existing_count] never decreases. *)
Theorem statistics_leave_admission_counters (calls : list stat_call) :
  forall (x : Stats) (s : St),
  let s' := snd (apply_stats calls x s) in
  downloaded_count s' = downloaded_count s /\
  pending_downloads_count s' = pending_downloads_count s /\
  failed_count s' = failed_count s /\ should_stop s' = should_stop s /\
  skipped_existing_count s <= skipped_existing_count s'.
Proof.
  induction calls as [|c calls IH]; intros x s; [simpl; repeat split; lia|].
  unfold apply_stats in *. cbn [fold_left fst snd].
  rewrite (surjective_pairing (update_statistics c x s)).
  destruct (IH (fst (update_statistics c x s)) (snd (update_statistics c x s))) as [H1 [H2 [H3 [H4 H5]]]].
  rewrite H1, H2, H3, H4.
  assert (Hs : downloaded_count (snd (update_statistics c x s)) = downloaded_count s /\
               pending_downloads_count (snd (update_statistics c x s)) = pending_downloads_count s /\
               failed_count (snd (update_statistics c x s)) = failed_count s /\
               should_stop (snd (update_statistics c x s)) = should_stop s /\
               skipped_existing_count s <= skipped_existing_count (snd (update_statistics c x s))).
  { unfold update_statistics.
    destruct (_ && _); [destruct (download_time c) as [t|]; [destruct (Qle_bool t 0)|]|
                        destruct (match error_type c with Some e => _ | None => false end)];
      simpl; repeat split; lia. }
  destruct Hs as [G1 [G2 [G3 [G4 G5]]]]. rewrite G1, G2, G3, G4. repeat split; lia.
Qed.





Lemma substring_0_full (s : string) : substring 0 (String.length s) s = s.
Proof. induction s as [|a s IH]; simpl; [reflexivity|rewrite IH; reflexivity]. Qed.




Lemma pages_in_order_with_barrier_witness :
  c_pc (run None (ex_feed [ex_entry "h"]) ex_wenv_ok (initial_cfg None None)
            [SCoord; SCoord; SCoord; SWork 0; SWork 0; SCoord]) = CTop 2 /\
  forallb task_done (c_tasks (run None (ex_feed [ex_entry "h"]) ex_wenv_ok (initial_cfg None None)
                                  [SCoord; SCoord; SCoord; SWork 0; SWork 0; SCoord])) = true.
Proof.
  split; [reflexivity|].
  apply (proj2 (pages_in_order_with_barrier None (ex_feed [ex_entry "h"]) ex_wenv_ok None
                  [SCoord; SCoord; SCoord; SWork 0; SWork 0; SCoord]) 2%nat).
  reflexivity.
Defined.

Lemma saved_iff_success_and_file_present_witness :
  w_saved (process_hash_entry (Some "h"%string) (ex_wenv_ok "h")) = true /\
  w_file (process_hash_entry (Some "h"%string) (ex_wenv_ok "h")) <> None.
Proof.
  split; [reflexivity|].
  apply (proj2 (saved_iff_success_and_file_present (Some "h"%string) (ex_wenv_ok "h"))).
  reflexivity.
Defined.

